(** * apollo-gateway: the gateway orchestration layer

    A shallow embedding of [packages/apollo-gateway/src/index.ts]: the
    [ApolloGateway] class (constructor, [load], [createSchema],
    [createServices], [loadServiceDefinitions], [executor],
    [initializeQueryPlanStore]) and [wrapSchemaWithAliasResolver].

    The class mutates [this], calls a logger and user callbacks, and throws.
    It is modelled as explicit state passing over a [World] (the object, the
    calls it made so far, the pending promise reactions) with an outcome that
    is either a returned value or a thrown error.

    A method runs from its first statement to its last before another call
    of a method starts: the interleavings an [await] allows between two
    calls in flight are not part of the model.  What an [await] does inside
    one call is: the promise the code does not wait for, the one of the
    write of the plan cache, has its [catch] handler run at the [await] on
    [executeQueryPlan] when it is rejected by then, and in a turn of its own
    once the executor has returned when it settles later ([runReaction]);
    a promise that never settles leaves its reaction pending for good. *)

From Stdlib Require Import String Ascii List Bool NArith.
From stdpp Require Import base option list strings gmap fin_maps.

Open Scope string_scope.

(** ** HTTP headers (the fetch [Headers] class)

    Header lines in arrival order. [get] is case-insensitive in the name and
    joins the values of the lines that match; it is [null] ([None]) when no
    line matches. *)

Definition lower_ascii (c : ascii) : ascii :=
  let n := nat_of_ascii c in
  if (Nat.leb 65 n && Nat.leb n 90)%bool then ascii_of_nat (n + 32) else c.

Fixpoint lower (s : string) : string :=
  match s with
  | EmptyString => EmptyString
  | String c rest => String (lower_ascii c) (lower rest)
  end.

Definition Headers := list (string * string).

Definition Headers_get (headers : Headers) (name : string) : option string :=
  match List.filter (λ line, String.eqb (lower line.1) (lower name)) headers with
  | [] => None
  | lines => Some (String.concat ", " (map snd lines))
  end.

Definition Headers_has (headers : Headers) (name : string) : bool :=
  existsb (λ line, String.eqb (lower line.1) (lower name)) headers.

(** JavaScript truthiness of a string, and of a possibly absent one. *)
Definition truthy_string (s : string) : bool := negb (String.eqb s "").

Definition truthy (o : option string) : bool :=
  match o with
  | Some s => truthy_string s
  | None => false
  end.

Definition newline : string := String (ascii_of_nat 10) "".

(** ** Data the gateway only passes along

    These types are declared in packages the gateway imports ([graphql],
    [@apollo/federation], [./QueryPlan], [apollo-server-caching], ...).  The
    gateway never looks inside their values, so they stay abstract. *)
Class OpaqueData := {
  TypeDefs : Type;            (* [ServiceDefinition.typeDefs], a [DocumentNode] *)
  GraphQLError : Type;
  Value : Type;               (* a JSON value of a response *)
  SchemaExtensions : Type;    (* the federation metadata carried by a schema *)
  HeadersInit : Type;
  DocumentNode : Type;
  OperationDefinitionNode : Type;
  OperationContext : Type;
  QueryPlan : Type;
  UserDataSource : Type;      (* what a [buildService] of the user returns *)
  TContext : Type;
  QueryPlanCache : Type;      (* [InMemoryLRUCache<QueryPlan>] *)
}.

Section DataModel.
Context `{OpaqueData}.

(** *** Errors and outcomes *)

(** What the code of the gateway and of its collaborators can throw. *)
Inductive JsError : Type :=
| GraphQLSchemaValidationError (errors : list GraphQLError)
| Error (message : string)
| TypeError (message : string).

Inductive Result (A : Type) : Type :=
| Return (a : A)
| Throw (e : JsError).

(** A promise that its holder does not await, as far as the holder can
    tell: it is [settled] by the time the holder resumes from its next
    [await] (it was handed out settled, or it settles while the holder
    waits), or it is not; then it settles in a later turn, or never
    ([unsettled None]). *)
Inductive Promise (A : Type) : Type :=
| settled (outcome : Result A)
| unsettled (ending : option (Result A)).

(** *** Service definitions *)

(** [Pick<ServiceDefinition, 'name' | 'url'>] *)
Record ServiceEndpointDefinition := {
  name : string;
  url : option string;
}.

Record ServiceDefinition := {
  endpoint :> ServiceEndpointDefinition;
  typeDefs : TypeDefs;
}.

Inductive GraphQLDataSource :=
| RemoteGraphQLDataSource (url : option string)
| CustomDataSource (source : UserDataSource).

(** [ServiceMap]: an object without prototype, used as a dictionary. *)
Definition ServiceMap := gmap string GraphQLDataSource.

(** *** The schema, as far as the gateway looks into it *)

Inductive NamedTypeKind :=
| ScalarType | ObjectType | InterfaceType | UnionType | EnumType | InputObjectType.

(** [info.fieldName] and [info.path.key] of [GraphQLResolveInfo]: the name of
    the field in the schema, and the key of the field in the response (its
    alias when the query gave one). *)
Record ResolveInfo := {
  fieldName : string;
  pathKey : string;
}.

Definition FieldResolver := gmap string Value → ResolveInfo → option Value.

Record GraphQLField := {
  fieldType : string;
  resolve : option FieldResolver;
}.

Record GraphQLNamedType := {
  kind : NamedTypeKind;
  typeName : string;
  getFields : gmap string GraphQLField;
}.

Record GraphQLSchema := {
  getTypeMap : gmap string GraphQLNamedType;
  extensions : SchemaExtensions;
}.

(** What [composeAndValidate] returns (its [warnings] are not read). *)
Record CompositionResult := {
  composedSchema : GraphQLSchema;
  compositionErrors : option (list GraphQLError);
}.

(** *** Requests and responses *)

Record HttpRequest := {
  headers : option Headers;
}.

Record GraphQLRequest := {
  operationName : option string;
  http : option HttpRequest;
}.

(** [WithRequired<GraphQLRequestContext<TContext>, 'document' | 'operation' | 'queryHash'>] *)
Record GraphQLRequestContext := {
  request : GraphQLRequest;
  document : DocumentNode;
  operation : OperationDefinitionNode;
  queryHash : string;
  context : TContext;
}.

Inductive ExtensionValue :=
| SerializedQueryPlan (text : string)
| OtherExtension (value : Value).

Record GraphQLExecutionResult := {
  data : option Value;
  errors : option (list GraphQLError);
  responseExtensions : option (gmap string ExtensionValue);
}.

(** *** Observability callbacks

    A callback is user code: it returns nothing, or it throws. *)
Definition DidResolveQueryPlanCallback :=
  QueryPlan → ServiceMap → OperationContext → Result unit.
Definition DidFailCompositionCallback :=
  list GraphQLError → list ServiceDefinition → Result unit.
Definition DidUpdateSchemaCallback :=
  option GraphQLSchema → GraphQLSchema → Result unit.
Definition DidUpdateServiceListCallback :=
  list ServiceDefinition → list ServiceDefinition → Result unit.

(** [GetServiceList] awaits something outside the gateway; what it resolves
    to on a given call is part of that call's [LoadReplies] below.  The
    configuration only tells whether one was supplied. *)
Inductive GetServiceList := CustomServiceListLoader.

End DataModel.
Arguments Return {_ A} a.
Arguments Throw {_ A} e.
Arguments settled {_ A} outcome.
Arguments unsettled {_ A} ending.

(** ** [GatewayConfig]

    An absent property is [None]; the code reads the properties by value, so
    a property that is present with the value [undefined] is [None] as well.
    The exceptions are the two properties the code asks for by key:
    [localServiceList], which ['localServiceList' in config] tests and which
    is an array whenever a [LocalGatewayConfig] has it, and
    [__exposeQueryPlanExperimental], which the object spread of the
    constructor copies when the key is there, whatever its value: [None] is
    the key absent, [Some None] the key present with the value [undefined]
    (the type [boolean | undefined] admits it), [Some (Some b)] a boolean. *)
Module Config.
Section Config.
Context `{OpaqueData}.

Record GatewayConfig := {
  debug : option bool;
  __exposeQueryPlanExperimental : option (option bool);
  buildService : option (ServiceEndpointDefinition → Result GraphQLDataSource);
  serviceList : option (list ServiceEndpointDefinition);
  introspectionHeaders : option HeadersInit;
  experimental_didResolveQueryPlan : option DidResolveQueryPlanCallback;
  experimental_didFailComposition : option DidFailCompositionCallback;
  experimental_didUpdateSchema : option DidUpdateSchemaCallback;
  experimental_didUpdateServiceList : option DidUpdateServiceListCallback;
  experimental_getServiceList : option GetServiceList;
  localServiceList : option (list ServiceDefinition);
}.

End Config.
End Config.

(** ** The collaborators

    Functions the gateway imports and calls.  Their code is not in
    [index.ts]; the gateway is verified for every implementation of them.
    A function that can throw (or whose promise can reject) returns a
    [Result]. *)
Class Collaborators `{OpaqueData} := {
  (* @apollo/federation *)
  composeAndValidate : list ServiceDefinition → CompositionResult;
  (* ./buildQueryPlan; the schema is [undefined] when the gateway has none *)
  buildOperationContext :
    option GraphQLSchema → DocumentNode → option string → Result OperationContext;
  buildQueryPlan : OperationContext → Result QueryPlan;
  (* ./executeQueryPlan *)
  executeQueryPlan :
    QueryPlan → ServiceMap → GraphQLRequestContext → OperationContext →
    Result GraphQLExecutionResult;
  (* ./QueryPlan *)
  serializeQueryPlan : QueryPlan → string;
  (* JSON.stringify, on a query plan *)
  JSON_stringify : QueryPlan → string;
  (* apollo-server-caching: [new InMemoryLRUCache({maxSize, sizeCalculator})],
     [get] (a lookup in memory, which also refreshes the entry and whose
     promise is always fulfilled) and [set] (which writes the store and
     hands out a promise; being an [async] method it never throws to its
     caller) *)
  InMemoryLRUCache : N → (QueryPlan → nat) → QueryPlanCache;
  cache_get : QueryPlanCache → string → QueryPlanCache * option QueryPlan;
  cache_set : QueryPlanCache → string → QueryPlan → QueryPlanCache * Promise unit;
}.

Section Gateway.
Context `{Collaborators}.

(** ** The state of an [ApolloGateway] *)

Record ApolloGateway := {
  schema : option GraphQLSchema;
  isReady : bool;
  serviceMap : ServiceMap;
  config : Config.GatewayConfig;
  queryPlanStore : option QueryPlanCache;
  experimental_didResolveQueryPlan : option DidResolveQueryPlanCallback;
  experimental_didFailComposition : option DidFailCompositionCallback;
  experimental_didUpdateSchema : option DidUpdateSchemaCallback;
  experimental_didUpdateServiceList : option DidUpdateServiceListCallback;
  experimental_getServiceList : option GetServiceList;
}.

(** A call the gateway made on its logger, on a callback of the user, or on
    a collaborator that reaches outside the process. *)
Inductive Call :=
| logger_debug (message : string)
| logger_warn (message : string) (err : JsError)
| logger_enableAll
| call_didFailComposition (errors : list GraphQLError) (serviceList : list ServiceDefinition)
| call_didUpdateSchema (previousSchema : option GraphQLSchema) (currentSchema : GraphQLSchema)
| call_didUpdateServiceList (previousServiceConfig currentServiceConfig : list ServiceDefinition)
| call_didResolveQueryPlan (queryPlan : QueryPlan) (services : ServiceMap) (operationContext : OperationContext)
| call_getServiceList
| call_getServiceDefinitionsFromRemoteEndpoint
    (serviceList : list ServiceEndpointDefinition) (headers : option HeadersInit)
| call_executeQueryPlan (queryPlan : QueryPlan) (services : ServiceMap)
    (requestContext : GraphQLRequestContext) (operationContext : OperationContext).

(** A promise reaction that is still waiting when the executor returns:
    [Promise.resolve(p).catch(err => this.logger.warn(message, err))], with
    how [p] ends, if it ever does. *)
Inductive Reaction :=
| catch_warn (message : string) (ending : option (Result unit)).

Record World := {
  this : ApolloGateway;
  calls : list Call;          (* oldest first *)
  reactions : list Reaction;  (* oldest first *)
}.

(** ** State and exceptions *)

Definition M (A : Type) : Type := World → World * Result A.

Definition ret {A} (a : A) : M A := λ w, (w, Return a).

Definition throw {A} (e : JsError) : M A := λ w, (w, Throw e).

Definition bind {A B} (m : M A) (k : A → M B) : M B :=
  λ w, match m w with
       | (w', Return a) => k a w'
       | (w', Throw e) => (w', Throw e)
       end.

(** The outcome of a call of a collaborator or of a callback. *)
Definition lift {A} (r : Result A) : M A := λ w, (w, r).

Definition getThis : M ApolloGateway := λ w, (w, Return (this w)).

Definition modifyThis (f : ApolloGateway → ApolloGateway) : M unit :=
  λ w, ({| this := f (this w); calls := calls w; reactions := reactions w |}, Return tt).

Definition emit (c : Call) : M unit :=
  λ w, ({| this := this w; calls := calls w ++ [c]; reactions := reactions w |}, Return tt).

Definition defer (r : Reaction) : M unit :=
  λ w, ({| this := this w; calls := calls w; reactions := reactions w ++ [r] |}, Return tt).

(** The method is suspended at an [await]: the jobs queued for it (calls of
    handlers whose promise is rejected by now) run before it resumes. *)
Definition await (jobs : list Call) : M unit :=
  λ w, ({| this := this w; calls := calls w ++ jobs; reactions := reactions w |}, Return tt).

End Gateway.

Notation "x <- m ;; k" := (bind m (λ x, k))
  (at level 100, m at next level, right associativity).
Notation "m ;; k" := (bind m (λ _, k))
  (at level 100, right associativity).

Section Methods.
Context `{Collaborators}.

(** ** Assignments to the fields of [this] *)

Definition set_schema (v : option GraphQLSchema) (g : ApolloGateway) : ApolloGateway :=
  {| schema := v; isReady := isReady g; serviceMap := serviceMap g;
     config := config g; queryPlanStore := queryPlanStore g;
     experimental_didResolveQueryPlan := experimental_didResolveQueryPlan g;
     experimental_didFailComposition := experimental_didFailComposition g;
     experimental_didUpdateSchema := experimental_didUpdateSchema g;
     experimental_didUpdateServiceList := experimental_didUpdateServiceList g;
     experimental_getServiceList := experimental_getServiceList g |}.

Definition set_isReady (v : bool) (g : ApolloGateway) : ApolloGateway :=
  {| schema := schema g; isReady := v; serviceMap := serviceMap g;
     config := config g; queryPlanStore := queryPlanStore g;
     experimental_didResolveQueryPlan := experimental_didResolveQueryPlan g;
     experimental_didFailComposition := experimental_didFailComposition g;
     experimental_didUpdateSchema := experimental_didUpdateSchema g;
     experimental_didUpdateServiceList := experimental_didUpdateServiceList g;
     experimental_getServiceList := experimental_getServiceList g |}.

Definition set_serviceMap (v : ServiceMap) (g : ApolloGateway) : ApolloGateway :=
  {| schema := schema g; isReady := isReady g; serviceMap := v;
     config := config g; queryPlanStore := queryPlanStore g;
     experimental_didResolveQueryPlan := experimental_didResolveQueryPlan g;
     experimental_didFailComposition := experimental_didFailComposition g;
     experimental_didUpdateSchema := experimental_didUpdateSchema g;
     experimental_didUpdateServiceList := experimental_didUpdateServiceList g;
     experimental_getServiceList := experimental_getServiceList g |}.

Definition set_queryPlanStore (v : option QueryPlanCache) (g : ApolloGateway) : ApolloGateway :=
  {| schema := schema g; isReady := isReady g; serviceMap := serviceMap g;
     config := config g; queryPlanStore := v;
     experimental_didResolveQueryPlan := experimental_didResolveQueryPlan g;
     experimental_didFailComposition := experimental_didFailComposition g;
     experimental_didUpdateSchema := experimental_didUpdateSchema g;
     experimental_didUpdateServiceList := experimental_didUpdateServiceList g;
     experimental_getServiceList := experimental_getServiceList g |}.

(** The five assignments that end the constructor. *)
Definition set_callbacks (c : Config.GatewayConfig) (g : ApolloGateway) : ApolloGateway :=
  {| schema := schema g; isReady := isReady g; serviceMap := serviceMap g;
     config := config g; queryPlanStore := queryPlanStore g;
     experimental_didResolveQueryPlan := Config.experimental_didResolveQueryPlan c;
     experimental_didFailComposition := Config.experimental_didFailComposition c;
     experimental_didUpdateSchema := Config.experimental_didUpdateSchema c;
     experimental_didUpdateServiceList := Config.experimental_didUpdateServiceList c;
     experimental_getServiceList := Config.experimental_getServiceList c |}.

(** ** [wrapSchemaWithAliasResolver] *)

Definition isObjectType (type : GraphQLNamedType) : bool :=
  match kind type with
  | ObjectType => true
  | _ => false
  end.

(** The names of [introspectionTypes] of graphql-js. *)
Definition introspectionTypes : list string :=
  ["__Schema"; "__Directive"; "__DirectiveLocation"; "__Type"; "__Field";
   "__InputValue"; "__EnumValue"; "__TypeKind"].

Definition isIntrospectionType (type : GraphQLNamedType) : bool :=
  existsb (String.eqb (typeName type)) introspectionTypes.

(** Modelled from the spec: [defaultFieldResolverWithAliasSupport] is
    imported from [./executeQueryPlan], which is not among the sources at
    hand.  The spec has it read a field of a backend result "by alias, not
    by field name": the value is looked up under the response key. *)
Definition defaultFieldResolverWithAliasSupport : FieldResolver :=
  λ source info, source !! pathKey info.

(** [field.resolve = defaultFieldResolverWithAliasSupport] *)
Definition setResolve (field : GraphQLField) : GraphQLField :=
  {| fieldType := fieldType field;
     resolve := Some defaultFieldResolverWithAliasSupport |}.

(** The body of the outer [forEach]: what happens to one type. *)
Definition wrapType (type : GraphQLNamedType) : GraphQLNamedType :=
  if isObjectType type && negb (isIntrospectionType type)
  then {| kind := kind type;
          typeName := typeName type;
          getFields := setResolve <$> getFields type |}
  else type.

(** The schema is patched in place and handed back: every type of the type
    map is visited once, under its own key, and every field of a visited
    object type once, under its own key. *)
Definition wrapSchemaWithAliasResolver (schema : GraphQLSchema) : GraphQLSchema :=
  {| getTypeMap := wrapType <$> getTypeMap schema;
     extensions := extensions schema |}.

(** ** The methods of [ApolloGateway] *)

Definition isLocalConfig (config : Config.GatewayConfig) : bool :=
  match Config.localServiceList config with
  | Some _ => true
  | None => false
  end.

(** [Buffer.byteLength(JSON.stringify(obj), 'utf8')]; a [string] is a
    sequence of bytes. *)
Definition approximateObjectSize (obj : QueryPlan) : nat :=
  String.length (JSON_stringify obj).

Definition initializeQueryPlanStore : M unit :=
  modifyThis
    (set_queryPlanStore (Some (InMemoryLRUCache (2 ^ 20 * 30)%N approximateObjectSize))).

Fixpoint createServices (services : list ServiceEndpointDefinition) : M unit :=
  match services with
  | [] => ret tt
  | serviceDef :: rest =>
      gateway <- getThis ;;
      (if negb (truthy (url serviceDef)) && negb (isLocalConfig (config gateway))
       then throw (Error ("Service defintion for service " ++ name serviceDef
                          ++ " is missing a url"))
       else ret tt) ;;
      dataSource <- match Config.buildService (config gateway) with
                    | Some buildService => lift (buildService serviceDef)
                    | None => ret (RemoteGraphQLDataSource (url serviceDef))
                    end ;;
      modifyThis (λ g, set_serviceMap (<[name serviceDef := dataSource]> (serviceMap g)) g) ;;
      createServices rest
  end.

Definition createSchema (services : list ServiceDefinition) : M unit :=
  gateway <- getThis ;;
  let previousSchema := schema gateway in
  emit (logger_debug ("Composing schema from service list: " ++ newline
                      ++ String.concat newline (map (λ s : ServiceDefinition, "  " ++ name s) services))) ;;
  let composition := composeAndValidate services in
  match compositionErrors composition with
  | Some ((_ :: _) as errors) =>
      match experimental_didFailComposition gateway with
      | Some didFailComposition =>
          emit (call_didFailComposition errors services) ;;
          lift (didFailComposition errors services)
      | None => ret tt
      end ;;
      throw (GraphQLSchemaValidationError errors)
  | _ =>
      let currentSchema := wrapSchemaWithAliasResolver (composedSchema composition) in
      modifyThis (set_schema (Some currentSchema)) ;;
      match experimental_didUpdateSchema gateway with
      | Some didUpdateSchema =>
          emit (call_didUpdateSchema previousSchema currentSchema) ;;
          lift (didUpdateSchema previousSchema currentSchema)
      | None => ret tt
      end ;;
      createServices (map endpoint services) ;;
      emit (logger_debug "Schema loaded and ready for execution") ;;
      modifyThis (set_isReady true)
  end.

(** What the world outside answers during one call of [load]: what
    [experimental_getServiceList(this.config)] resolves to, and what
    [getServiceDefinitionsFromRemoteEndpoint] resolves to (the services; its
    second component is not read). *)
Record LoadReplies := {
  getServiceList_reply : Result (list ServiceDefinition);
  getServiceDefinitionsFromRemoteEndpoint_reply : Result (list ServiceDefinition);
}.

Definition loadServiceDefinitions (replies : LoadReplies) (config : Config.GatewayConfig)
  : M (list ServiceDefinition) :=
  match Config.localServiceList config with
  | Some localServiceList => ret localServiceList
  | None =>
      match Config.serviceList config with
      | None => throw (Error "The gateway requires a service list to be provided in the config")
      | Some serviceList =>
          emit (call_getServiceDefinitionsFromRemoteEndpoint
                  serviceList (Config.introspectionHeaders config)) ;;
          remoteServices <- lift (getServiceDefinitionsFromRemoteEndpoint_reply replies) ;;
          createServices (map endpoint remoteServices) ;;
          ret remoteServices
      end
  end.

(** [this.schema!]: the assertion is erased by the compiler; at run time the
    expression is [this.schema], undefined or not. *)
Definition nonNull {A} (o : option A) : option A := o.

(** [await this.queryPlanStore.get(queryHash)] *)
Definition queryPlanStore_get (store : QueryPlanCache) (key : string) : M (option QueryPlan) :=
  let '(store', found) := cache_get store key in
  modifyThis (set_queryPlanStore (Some store')) ;;
  ret found.

(** [Promise.resolve(this.queryPlanStore.set(queryHash, queryPlan)).catch(err =>
    this.logger.warn('Could not store queryPlan', err))]: the store is
    written and the promise is not awaited.  What is handed back are the
    jobs for the next [await] of the executor: the handler, when the
    promise is rejected by then.  A promise that is not settled by then
    leaves the reaction waiting. *)
Definition queryPlanStore_set (store : QueryPlanCache) (key : string) (queryPlan : QueryPlan)
  : M (list Call) :=
  let '(store', promise) := cache_set store key queryPlan in
  modifyThis (set_queryPlanStore (Some store')) ;;
  match promise with
  | settled (Return _) => ret []
  | settled (Throw err) => ret [logger_warn "Could not store queryPlan" err]
  | unsettled ending => defer (catch_warn "Could not store queryPlan" ending) ;; ret []
  end.

(** The value of the [&&] chain, as the [if] reads it. *)
Definition shouldShowQueryPlan (config : Config.GatewayConfig) (req : GraphQLRequest) : bool :=
  match Config.__exposeQueryPlanExperimental config with
  | Some (Some true) =>
      match http req with
      | Some httpRequest =>
          match headers httpRequest with
          | Some requestHeaders =>
              truthy (Headers_get requestHeaders "Apollo-Query-Plan-Experimental")
          | None => false
          end
      | None => false
      end
  | _ => false
  end.

(** [planned] is the plan the request runs, with the jobs the write of a
    plan just built leaves for the next [await].  That [await] is the one on
    [executeQueryPlan(...)]: the function has been called when the executor
    is suspended, and the executor resumes with what its promise settles
    to. *)
Definition executor (requestContext : GraphQLRequestContext) : M GraphQLExecutionResult :=
  let req := request requestContext in
  gateway <- getThis ;;
  operationContext <-
    lift (buildOperationContext (nonNull (schema gateway)) (document requestContext)
            (operationName req)) ;;
  cached <- match queryPlanStore gateway with
            | Some store => queryPlanStore_get store (queryHash requestContext)
            | None => ret None
            end ;;
  planned <- match cached with
             | Some queryPlan => ret (queryPlan, [])
             | None =>
                 queryPlan <- lift (buildQueryPlan operationContext) ;;
                 gateway <- getThis ;;
                 jobs <- match queryPlanStore gateway with
                         | Some store =>
                             queryPlanStore_set store (queryHash requestContext) queryPlan
                         | None => ret []
                         end ;;
                 ret (queryPlan, jobs)
             end ;;
  let queryPlan := planned.1 in
  gateway <- getThis ;;
  emit (call_executeQueryPlan queryPlan (serviceMap gateway) requestContext operationContext) ;;
  await planned.2 ;;
  response <-
    lift (executeQueryPlan queryPlan (serviceMap gateway) requestContext operationContext) ;;
  match experimental_didResolveQueryPlan gateway with
  | Some didResolveQueryPlan =>
      emit (call_didResolveQueryPlan queryPlan (serviceMap gateway) operationContext) ;;
      lift (didResolveQueryPlan queryPlan (serviceMap gateway) operationContext)
  | None => ret tt
  end ;;
  if shouldShowQueryPlan (config gateway) req
  then
    let serializedQueryPlan := serializeQueryPlan queryPlan in
    emit (logger_debug serializedQueryPlan) ;;
    ret {| data := data response;
           errors := errors response;
           responseExtensions :=
             Some {[ "__queryPlanExperimental" := SerializedQueryPlan serializedQueryPlan ]} |}
  else ret response.

(** What [load] resolves to. *)
Record LoadResult := {
  loadedSchema : option GraphQLSchema;
  loadedExecutor : GraphQLRequestContext → M GraphQLExecutionResult;
}.

Definition load (replies : LoadReplies) : M LoadResult :=
  gateway <- getThis ;;
  (if negb (isReady gateway)
   then
     emit (logger_debug "Loading configuration for Gateway") ;;
     services <- match experimental_getServiceList gateway with
                 | Some _ => emit call_getServiceList ;; lift (getServiceList_reply replies)
                 | None => loadServiceDefinitions replies (config gateway)
                 end ;;
     emit (logger_debug "Configuration loaded for Gateway") ;;
     createSchema services
   else ret tt) ;;
  gateway <- getThis ;;
  ret {| loadedSchema := schema gateway; loadedExecutor := executor |}.

(** One turn of the job queue, between two calls of methods: the promise
    of the [i]-th reaction that waits settles, if it ever does, and the
    reaction runs. *)
Definition runReaction (i : nat) : M unit :=
  λ w, match reactions w !! i with
       | Some (catch_warn message (Some ending)) =>
           let w' := {| this := this w; calls := calls w; reactions := delete i (reactions w) |} in
           match ending with
           | Return _ => (w', Return tt)
           | Throw err => emit (logger_warn message err) w'
           end
       | _ => (w, Return tt)
       end.

(** *** The constructor *)

(** [{ __exposeQueryPlanExperimental: process.env.NODE_ENV !== 'production', ...config }]:
    the spread copies every property [config] has over the default, also one
    whose value is [undefined]. *)
Definition spreadConfig (NODE_ENV : option string) (c : Config.GatewayConfig)
  : Config.GatewayConfig :=
  {| Config.debug := Config.debug c;
     Config.__exposeQueryPlanExperimental :=
       match Config.__exposeQueryPlanExperimental c with
       | Some explicit => Some explicit
       | None => Some (Some (negb (bool_decide (NODE_ENV = Some "production"))))
       end;
     Config.buildService := Config.buildService c;
     Config.serviceList := Config.serviceList c;
     Config.introspectionHeaders := Config.introspectionHeaders c;
     Config.experimental_didResolveQueryPlan := Config.experimental_didResolveQueryPlan c;
     Config.experimental_didFailComposition := Config.experimental_didFailComposition c;
     Config.experimental_didUpdateSchema := Config.experimental_didUpdateSchema c;
     Config.experimental_didUpdateServiceList := Config.experimental_didUpdateServiceList c;
     Config.experimental_getServiceList := Config.experimental_getServiceList c;
     Config.localServiceList := Config.localServiceList c |}.

(** The object before the body of the constructor runs: the initializers of
    the fields, and [this.config] (the first statement of the body). *)
Definition freshGateway (NODE_ENV : option string) (c : Config.GatewayConfig) : ApolloGateway :=
  {| schema := None;
     isReady := false;
     serviceMap := ∅;
     config := spreadConfig NODE_ENV c;
     queryPlanStore := None;
     experimental_didResolveQueryPlan := None;
     experimental_didFailComposition := None;
     experimental_didUpdateSchema := None;
     experimental_didUpdateServiceList := None;
     experimental_getServiceList := None |}.

Definition constructor (c : Config.GatewayConfig) : M unit :=
  match Config.debug c with
  | Some true => emit logger_enableAll
  | _ => ret tt
  end ;;
  match Config.localServiceList c with
  | Some localServiceList => createSchema localServiceList
  | None => ret tt
  end ;;
  initializeQueryPlanStore ;;
  modifyThis (set_callbacks c).

(** [new ApolloGateway(config)] *)
Definition new_ApolloGateway (NODE_ENV : option string) (c : Config.GatewayConfig)
  : World * Result unit :=
  constructor c {| this := freshGateway NODE_ENV c; calls := []; reactions := [] |}.

End Methods.

(** ** Notions the properties are stated with *)
Section Notions.
Context `{Collaborators}.

(** The handle [createServices] registers for a service. *)
Definition dataSourceFor (c : Config.GatewayConfig) (d : ServiceEndpointDefinition)
  : Result GraphQLDataSource :=
  match Config.buildService c with
  | Some buildService => buildService d
  | None => Return (RemoteGraphQLDataSource (url d))
  end.

(** Composition reported at least one error. *)
Definition compositionFailed (services : list ServiceDefinition) : bool :=
  match compositionErrors (composeAndValidate services) with
  | Some (_ :: _) => true
  | _ => false
  end.

(** The message [createSchema] logs first. *)
Definition composingMessage (services : list ServiceDefinition) : string :=
  "Composing schema from service list: " ++ newline
  ++ String.concat newline (map (λ s : ServiceDefinition, "  " ++ name s) services).

(** The plans handed to [executeQueryPlan], oldest first. *)
Definition plansExecuted (l : list Call) : list QueryPlan :=
  omap (λ c, match c with
             | call_executeQueryPlan queryPlan _ _ _ => Some queryPlan
             | _ => None
             end) l.

(** What the plan cache answers for a key. *)
Definition cachedPlan (g : ApolloGateway) (key : string) : option QueryPlan :=
  match queryPlanStore g with
  | Some store => (cache_get store key).2
  | None => None
  end.

Definition isServiceListReport (c : Call) : bool :=
  match c with
  | call_didUpdateServiceList _ _ => true
  | _ => false
  end.

(** The calls made on [experimental_didUpdateServiceList]. *)
Definition serviceListReports (w : World) : list Call :=
  List.filter isServiceListReport (calls w).

Definition isWarning (c : Call) : bool :=
  match c with
  | logger_warn _ _ => true
  | _ => false
  end.

(** The warnings logged. *)
Definition warnings (w : World) : list Call :=
  List.filter isWarning (calls w).

(** Everything of the gateway but its plan cache. *)
Definition besidesQueryPlanStore (w : World) : ApolloGateway :=
  set_queryPlanStore None (this w).

(** [response.extensions = { __queryPlanExperimental: serializedQueryPlan }] *)
Definition withQueryPlan (response : GraphQLExecutionResult) (queryPlan : QueryPlan)
  : GraphQLExecutionResult :=
  {| data := data response;
     errors := errors response;
     responseExtensions :=
       Some {[ "__queryPlanExperimental" :=
                 SerializedQueryPlan (serializeQueryPlan queryPlan) ]} |}.

(** The value of the header that asks for the query plan, if the request
    came over HTTP and has the header. *)
Definition queryPlanHeader (req : GraphQLRequest) : option string :=
  httpRequest ← http req;
  requestHeaders ← headers httpRequest;
  Headers_get requestHeaders "Apollo-Query-Plan-Experimental".

(** The handler of the write of the plan cache that runs while the
    executor awaits the execution of the plan: the one of a write that is
    rejected by then. *)
Definition warnedAtAwait (write : Promise unit) : list Call :=
  match write with
  | settled (Throw err) => [logger_warn "Could not store queryPlan" err]
  | _ => []
  end.

(** The reaction to the write that still waits when the executor returns. *)
Definition leftWaiting (write : Promise unit) : list Reaction :=
  match write with
  | unsettled ending => [catch_warn "Could not store queryPlan" ending]
  | settled _ => []
  end.

(** The jobs that run while a request that has built a plan awaits its
    execution: the handler of the write of the plan, if the gateway has a
    plan cache and the write is rejected by then. *)
Definition awaitedJobs (g : ApolloGateway) (key : string) (queryPlan : QueryPlan)
  : list Call :=
  match queryPlanStore g with
  | Some store => warnedAtAwait (cache_set (cache_get store key).1 key queryPlan).2
  | None => []
  end.

(** What the executor does once it holds a plan: the calls it makes, and
    its outcome.  [jobs] are the calls made while it awaits the execution of
    the plan. *)
Definition served (g : ApolloGateway) (requestContext : GraphQLRequestContext)
    (operationContext : OperationContext) (queryPlan : QueryPlan) (jobs : list Call)
  : list Call * Result GraphQLExecutionResult :=
  let execution :=
    call_executeQueryPlan queryPlan (serviceMap g) requestContext operationContext in
  match executeQueryPlan queryPlan (serviceMap g) requestContext operationContext with
  | Throw e => (execution :: jobs, Throw e)
  | Return response =>
      let observed :=
        match experimental_didResolveQueryPlan g with
        | Some didResolveQueryPlan =>
            ([call_didResolveQueryPlan queryPlan (serviceMap g) operationContext],
             didResolveQueryPlan queryPlan (serviceMap g) operationContext)
        | None => ([], Return tt)
        end in
      match observed.2 with
      | Throw e => ((execution :: jobs ++ observed.1)%list, Throw e)
      | Return _ =>
          if shouldShowQueryPlan (config g) (request requestContext)
          then ((execution :: jobs ++ observed.1
                   ++ [logger_debug (serializeQueryPlan queryPlan)])%list,
                Return (withQueryPlan response queryPlan))
          else ((execution :: jobs ++ observed.1)%list, Return response)
      end
  end.

(** A property of the world that a computation keeps, however it ends. *)
Definition maintains {A} (I : World → Prop) (m : M A) : Prop :=
  ∀ w, I w → I (m w).1.

(** A part of the world that a computation leaves as it is. *)
Definition keeps {X A} (f : World → X) (m : M A) : Prop :=
  ∀ w, f (m w).1 = f w.

(** The same gateway without a plan cache. *)
Definition withoutQueryPlanStore (w : World) : World :=
  {| this := set_queryPlanStore None (this w); calls := calls w; reactions := reactions w |}.

(** [isReady] only with a schema. *)
Definition readyHasSchema (g : ApolloGateway) : Prop :=
  isReady g = true → is_Some (schema g).

(** The operations of a gateway: its methods, and a turn of the job queue. *)
Inductive Operation :=
| op_load (replies : LoadReplies)
| op_createSchema (services : list ServiceDefinition)
| op_createServices (services : list ServiceEndpointDefinition)
| op_loadServiceDefinitions (replies : LoadReplies) (c : Config.GatewayConfig)
| op_executor (requestContext : GraphQLRequestContext)
| op_initializeQueryPlanStore
| op_runReaction (i : nat).

(** The world after an operation, whether it returned or threw. *)
Definition perform (op : Operation) (w : World) : World :=
  match op with
  | op_load replies => (load replies w).1
  | op_createSchema services => (createSchema services w).1
  | op_createServices services => (createServices services w).1
  | op_loadServiceDefinitions replies c => (loadServiceDefinitions replies c w).1
  | op_executor requestContext => (executor requestContext w).1
  | op_initializeQueryPlanStore => (initializeQueryPlanStore w).1
  | op_runReaction i => (runReaction i w).1
  end.

(** The worlds of a gateway made by [new ApolloGateway(c)]: constructed,
    then operated on. *)
Inductive reachable (NODE_ENV : option string) (c : Config.GatewayConfig) : World → Prop :=
| reachable_new :
    (new_ApolloGateway NODE_ENV c).2 = Return tt →
    reachable NODE_ENV c (new_ApolloGateway NODE_ENV c).1
| reachable_perform op w :
    reachable NODE_ENV c w → reachable NODE_ENV c (perform op w).

(** *** The claims that do not hold as they are worded *)


(** After a composition the service map has the services of the list, and
    no other. *)
Definition serviceMapRebuilt (w : World) (services : list ServiceDefinition) : Prop :=
  (createSchema services w).2 = Return tt →
  ∀ n, is_Some (serviceMap (this (createSchema services w).1) !! n)
       ↔ n ∈ map name (map endpoint services).

Definition carriesQueryPlan (response : GraphQLExecutionResult) : Prop :=
  ∃ extensions, responseExtensions response = Some extensions
                ∧ is_Some (extensions !! "__queryPlanExperimental").

Definition hasQueryPlanHeader (req : GraphQLRequest) : bool :=
  match http req with
  | Some httpRequest =>
      match headers httpRequest with
      | Some requestHeaders => Headers_has requestHeaders "Apollo-Query-Plan-Experimental"
      | None => false
      end
  | None => false
  end.

(** The response carries the plan exactly when the flag is on and the
    header is among the headers of the request. *)
Definition exposedWhenHeaderPresent (w : World) (rc : GraphQLRequestContext) : Prop :=
  ∀ response,
    (executor rc w).2 = Return response →
    (carriesQueryPlan response
     ↔ Config.__exposeQueryPlanExperimental (config (this w)) = Some (Some true)
       ∧ hasQueryPlanHeader (request rc) = true).


(** *** Notions for further properties of the methods *)

(** A service [createServices] can register: it has a url, unless the
    configuration is a local one, and its handle can be built. *)
Definition registrable (c : Config.GatewayConfig) (d : ServiceEndpointDefinition) : Prop :=
  (truthy (url d) = true ∨ isLocalConfig c = true)
  ∧ ∃ h, dataSourceFor c d = Return h.

(** The error of [createServices] for a service without url. *)
Definition missingUrl (d : ServiceEndpointDefinition) : JsError :=
  Error ("Service defintion for service " ++ name d ++ " is missing a url").

(** A call made on one of the observers of the configuration. *)
Definition isObserverCall (c : Call) : bool :=
  match c with
  | call_didFailComposition _ _ | call_didUpdateSchema _ _
  | call_didUpdateServiceList _ _ | call_didResolveQueryPlan _ _ _ => true
  | _ => false
  end.

(** The observers and the loader a gateway holds. *)
Definition observers (g : ApolloGateway) :=
  (experimental_didResolveQueryPlan g, experimental_didFailComposition g,
   experimental_didUpdateSchema g, experimental_didUpdateServiceList g,
   experimental_getServiceList g).

(** The observers and the loader a configuration sets. *)
Definition configuredObservers (c : Config.GatewayConfig) :=
  (Config.experimental_didResolveQueryPlan c, Config.experimental_didFailComposition c,
   Config.experimental_didUpdateSchema c, Config.experimental_didUpdateServiceList c,
   Config.experimental_getServiceList c).

End Notions.

(** ** A small federation to run the gateway on

    Collaborators simple enough to evaluate: a service declares object
    types by name with their fields, composition puts the types of all
    services side by side and rejects a service that declares none, and a
    query plan names the services of the schema it was built against. *)
Module Demo.

Record Plan := {
  planServices : list string;
  planOperation : string;
}.

(** Modelled from the spec: [InMemoryLRUCache] of [apollo-server-caching] is
    not among the sources at hand.  The spec describes the plan cache as
    size-bounded by an estimate of the bytes of each stored plan, with one
    entry per fingerprint and least-recently-used eviction. *)
Record LRU := {
  maxSize : N;
  sizeCalculator : Plan → nat;
  entries : list (string * Plan);   (* most recently used first *)
}.

Definition without (key : string) (l : list (string * Plan)) : list (string * Plan) :=
  List.filter (λ e, negb (String.eqb e.1 key)) l.

Definition lru_lookup (key : string) (l : list (string * Plan)) : option Plan :=
  snd <$> List.find (λ e, String.eqb e.1 key) l.

(** The longest prefix that fits the budget: what is left once the least
    recently used entries are dropped. *)
Fixpoint fitting (size : Plan → nat) (budget : N) (l : list (string * Plan))
  : list (string * Plan) :=
  match l with
  | [] => []
  | e :: rest =>
      let n := N.of_nat (size e.2) in
      if (n <=? budget)%N then e :: fitting size (budget - n)%N rest else []
  end.

Definition lru_get (c : LRU) (key : string) : LRU * option Plan :=
  match lru_lookup key (entries c) with
  | Some plan =>
      ({| maxSize := maxSize c; sizeCalculator := sizeCalculator c;
          entries := (key, plan) :: without key (entries c) |}, Some plan)
  | None => (c, None)
  end.

Definition lru_set (c : LRU) (key : string) (plan : Plan) : LRU :=
  {| maxSize := maxSize c; sizeCalculator := sizeCalculator c;
     entries := fitting (sizeCalculator c) (maxSize c) ((key, plan) :: without key (entries c)) |}.

Definition types : OpaqueData :=
  {| TypeDefs := list (string * list string);
     GraphQLError := string;
     Value := string;
     SchemaExtensions := list string;
     HeadersInit := Headers;
     DocumentNode := string;
     OperationDefinitionNode := string;
     OperationContext := option (list string) * string * option string;
     QueryPlan := Plan;
     UserDataSource := string;
     TContext := unit;
     QueryPlanCache := LRU |}.
#[local] Existing Instance types.

Definition plainField : @GraphQLField types :=
  {| fieldType := "String"; resolve := None |}.

Definition objectType (typeName : string) (fields : list string) : @GraphQLNamedType types :=
  {| kind := ObjectType; typeName := typeName;
     getFields := list_to_map ((λ f, (f, plainField)) <$> fields) |}.

Definition builtinTypes : list (string * @GraphQLNamedType types) :=
  [("String", {| kind := ScalarType; typeName := "String"; getFields := ∅ |});
   ("__Schema", objectType "__Schema" ["types"])].

Definition declaredTypes (service : @ServiceDefinition types)
  : list (string * @GraphQLNamedType types) :=
  (λ d : string * list string, (d.1, objectType d.1 d.2)) <$> typeDefs service.

Definition compose (services : list (@ServiceDefinition types)) : @CompositionResult types :=
  {| composedSchema :=
       {| getTypeMap := list_to_map (builtinTypes ++ (services ≫= declaredTypes));
          extensions := (λ s : @ServiceDefinition types, name s) <$> services |};
     compositionErrors :=
       Some (omap (λ s : @ServiceDefinition types,
                     match typeDefs s with
                     | [] => Some ("Service " ++ name s ++ " declares no type")
                     | _ => None
                     end) services) |}.

Definition serialize (plan : Plan) : string :=
  "QueryPlan { " ++ String.concat ", " (planServices plan) ++ " : " ++ planOperation plan ++ " }".

Definition execute (plan : Plan) (services : @ServiceMap types)
    (requestContext : @GraphQLRequestContext types)
    (operationContext : option (list string) * string * option string)
  : @Result types (@GraphQLExecutionResult types) :=
  if forallb (λ s, bool_decide (is_Some (services !! s))) (planServices plan)
  then Return {| data := Some ("result of " ++ planOperation plan);
                 errors := None; responseExtensions := None |}
  else Return {| data := None;
                 errors := Some ["a service of the plan is not registered"];
                 responseExtensions := None |}.

(** The operation context takes the schema as it comes, and planning reads
    it. *)
Definition operationContextFor (schema : option (@GraphQLSchema types)) (document : string)
    (operationName : option string)
  : @Result types (option (list string) * string * option string) :=
  Return (extensions <$> schema, document, operationName).

Definition planFor (operationContext : option (list string) * string * option string)
  : @Result types Plan :=
  match operationContext.1.1 with
  | Some services =>
      Return {| planServices := services; planOperation := operationContext.1.2 |}
  | None => Throw (TypeError "Cannot read property 'getQueryType' of undefined")
  end.

(** [write] is how the promise of every write of the plan cache ends; the
    entry is in the store unless the write is rejected at once. *)
Definition collaborators (write : @Promise types unit) : @Collaborators types :=
  {| composeAndValidate := compose;
     buildOperationContext := operationContextFor;
     buildQueryPlan := planFor;
     executeQueryPlan := execute;
     serializeQueryPlan := serialize;
     JSON_stringify := serialize;
     InMemoryLRUCache := λ maxSize sizeCalculator,
       {| maxSize := maxSize; sizeCalculator := sizeCalculator; entries := [] |};
     cache_get := lru_get;
     cache_set := λ c key queryPlan,
       (match write with
        | settled (Throw _) => c
        | _ => lru_set c key queryPlan
        end, write) |}.

Definition refused : @JsError types := Error "the store refused the entry".

(** Collaborators whose plan cache takes every write; whose plan cache
    rejects every write at once; and whose writes never complete. *)
Definition stores : @Collaborators types := collaborators (settled (Return tt)).
Definition rejects : @Collaborators types := collaborators (settled (Throw refused)).
Definition stalls : @Collaborators types := collaborators (unsettled None).

Definition service (name : string) (url : option string) (declared : list (string * list string))
  : @ServiceDefinition types :=
  {| endpoint := {| name := name; url := url |}; typeDefs := declared |}.

Definition accounts := service "accounts" (Some "http://accounts") [("User", ["id"; "name"])].
Definition products := service "products" (Some "http://products") [("Product", ["upc"; "price"])].
Definition reviews := service "reviews" None [("Review", ["body"])].
Definition broken := service "broken" (Some "http://broken") [].

Definition emptyConfig : @Config.GatewayConfig types :=
  {| Config.debug := None;
     Config.__exposeQueryPlanExperimental := None;
     Config.buildService := None;
     Config.serviceList := None;
     Config.introspectionHeaders := None;
     Config.experimental_didResolveQueryPlan := None;
     Config.experimental_didFailComposition := None;
     Config.experimental_didUpdateSchema := None;
     Config.experimental_didUpdateServiceList := None;
     Config.experimental_getServiceList := None;
     Config.localServiceList := None |}.

(** A gateway over a local service list. *)
Definition localConfig : @Config.GatewayConfig types :=
  {| Config.debug := Some true;
     Config.__exposeQueryPlanExperimental := None;
     Config.buildService := None;
     Config.serviceList := None;
     Config.introspectionHeaders := None;
     Config.experimental_didResolveQueryPlan := Some (λ _ _ _, Return tt);
     Config.experimental_didFailComposition := Some (λ _ _, Return tt);
     Config.experimental_didUpdateSchema := Some (λ _ _, Return tt);
     Config.experimental_didUpdateServiceList := Some (λ _ _, Return tt);
     Config.experimental_getServiceList := None;
     Config.localServiceList := Some [accounts] |}.

(** A gateway that fetches the definitions of its services, with every
    observer set. *)
Definition remoteConfig : @Config.GatewayConfig types :=
  {| Config.debug := None;
     Config.__exposeQueryPlanExperimental := None;
     Config.buildService := None;
     Config.serviceList := Some [endpoint accounts; endpoint products];
     Config.introspectionHeaders := None;
     Config.experimental_didResolveQueryPlan := Some (λ _ _ _, Return tt);
     Config.experimental_didFailComposition := Some (λ _ _, Return tt);
     Config.experimental_didUpdateSchema := Some (λ _ _, Return tt);
     Config.experimental_didUpdateServiceList := Some (λ _ _, Return tt);
     Config.experimental_getServiceList := None;
     Config.localServiceList := None |}.

(** A gateway with a service list loader of its own. *)
Definition customConfig : @Config.GatewayConfig types :=
  {| Config.debug := None;
     Config.__exposeQueryPlanExperimental := None;
     Config.buildService := None;
     Config.serviceList := None;
     Config.introspectionHeaders := None;
     Config.experimental_didResolveQueryPlan := None;
     Config.experimental_didFailComposition := None;
     Config.experimental_didUpdateSchema := None;
     Config.experimental_didUpdateServiceList := None;
     Config.experimental_getServiceList := Some CustomServiceListLoader;
     Config.localServiceList := None |}.

(** What the loaders answer: the given services. *)
Definition replying (services : list (@ServiceDefinition types))
  : @LoadReplies types :=
  {| getServiceList_reply := Return services;
     getServiceDefinitionsFromRemoteEndpoint_reply := Return services |}.

(** The request [{ me { name } }] over HTTP, with the given value for the
    header [Apollo-Query-Plan-Experimental] if any. *)
Definition meRequest (header : option string) : @GraphQLRequestContext types :=
  {| request :=
       {| operationName := None;
          http := Some {| headers :=
                            Some (("content-type", "application/json")
                                  :: match header with
                                     | Some value => [("Apollo-Query-Plan-Experimental", value)]
                                     | None => []
                                     end) |} |};
     document := "{ me { name } }";
     operation := "query";
     queryHash := "5f2a";
     context := tt |}.

(** The local gateway once constructed, with a store that takes writes and
    with one that rejects them. *)
Definition started (rejectWrites : bool) : @World types :=
  (@new_ApolloGateway types (if rejectWrites then rejects else stores) None localConfig).1.

(** The local gateway over a store whose writes never complete. *)
Definition stalling : @World types :=
  (@new_ApolloGateway types stalls None localConfig).1.

(** The schema of the local gateway, and the context of [meRequest] in it. *)
Definition accountsSchema : @GraphQLSchema types :=
  @wrapSchemaWithAliasResolver types (composedSchema (compose [accounts])).

Definition meContext : option (list string) * string * option string :=
  (Some ["accounts"], "{ me { name } }", None).

Definition mePlan : Plan :=
  {| planServices := ["accounts"]; planOperation := "{ me { name } }" |}.

(** The local gateway after it has answered [meRequest]. *)
Definition warmed : @World types :=
  (@executor types stores (meRequest None) (started false)).1.

(** The custom gateway after a [load] that composed [accounts] and
    [reviews], and then found that [reviews] has no url. *)
Definition stumbled : @World types :=
  (@load types stores (replying [accounts; reviews])
     (@new_ApolloGateway types stores None customConfig).1).1.

(** The remote gateway once constructed. *)
Definition remote : @World types :=
  (@new_ApolloGateway types stores None remoteConfig).1.

(** Collaborators with failures: a document without operation has no
    operation context, and the backends hang up on [{ boom }]. *)
Definition faulty : @Collaborators types :=
  {| composeAndValidate := compose;
     buildOperationContext := λ schema document operationName,
       if String.eqb document "" then Throw (Error "Must provide an operation.")
       else operationContextFor schema document operationName;
     buildQueryPlan := planFor;
     executeQueryPlan := λ plan services requestContext operationContext,
       if String.eqb (planOperation plan) "{ boom }" then Throw (Error "socket hang up")
       else execute plan services requestContext operationContext;
     serializeQueryPlan := serialize;
     JSON_stringify := serialize;
     InMemoryLRUCache := λ maxSize sizeCalculator,
       {| maxSize := maxSize; sizeCalculator := sizeCalculator; entries := [] |};
     cache_get := lru_get;
     cache_set := λ c key queryPlan, (lru_set c key queryPlan, settled (Return tt)) |}.

(** [accounts] again, at another address. *)
Definition accountsMoved := service "accounts" (Some "http://accounts-2") [("User", ["id"])].

(** No loader answers. *)
Definition unreachable : @LoadReplies types :=
  {| getServiceList_reply := Throw (Error "connect ECONNREFUSED");
     getServiceDefinitionsFromRemoteEndpoint_reply := Throw (Error "connect ECONNREFUSED") |}.

(** A request with the given document, not over HTTP. *)
Definition requestFor (text : string) : @GraphQLRequestContext types :=
  {| request := {| operationName := None; http := None |};
     document := text;
     operation := "query";
     queryHash := "sha256:" ++ text;
     context := tt |}.

(** A local gateway whose query plan observer throws. *)
Definition touchyConfig : @Config.GatewayConfig types :=
  {| Config.debug := None;
     Config.__exposeQueryPlanExperimental := Some (Some true);
     Config.buildService := None;
     Config.serviceList := None;
     Config.introspectionHeaders := None;
     Config.experimental_didResolveQueryPlan := Some (λ _ _ _, Throw (Error "observer failed"));
     Config.experimental_didFailComposition := None;
     Config.experimental_didUpdateSchema := None;
     Config.experimental_didUpdateServiceList := None;
     Config.experimental_getServiceList := None;
     Config.localServiceList := Some [accounts] |}.

Definition touchy : @World types :=
  (@new_ApolloGateway types stores None touchyConfig).1.

(** The gateway with a loader of its own, once constructed. *)
Definition custom : @World types :=
  (@new_ApolloGateway types stores None customConfig).1.

(** The local gateway over the collaborators with failures. *)
Definition fragile : @World types :=
  (@new_ApolloGateway types faulty None localConfig).1.





(** A local gateway whose configuration has the key
    [__exposeQueryPlanExperimental] with the value [undefined]. *)
Definition shyConfig : @Config.GatewayConfig types :=
  {| Config.debug := None;
     Config.__exposeQueryPlanExperimental := Some None;
     Config.buildService := None;
     Config.serviceList := None;
     Config.introspectionHeaders := None;
     Config.experimental_didResolveQueryPlan := None;
     Config.experimental_didFailComposition := None;
     Config.experimental_didUpdateSchema := None;
     Config.experimental_didUpdateServiceList := None;
     Config.experimental_getServiceList := None;
     Config.localServiceList := Some [accounts] |}.

End Demo.

(** * Properties *)
Section Properties.
Context `{Collaborators}.

Ltac run :=
  unfold bind, ret, throw, lift, getThis, modifyThis, emit, defer, await, nonNull,
    queryPlanStore_get, queryPlanStore_set in *; simpl in *.

(** ** What a computation keeps *)

Lemma maintains_ret {A} I (a : A) : maintains I (ret a).
Proof. by intros w HI. Qed.

Lemma maintains_throw {A} I e : maintains I (throw (A := A) e).
Proof. by intros w HI. Qed.

Lemma maintains_lift {A} I (r : Result A) : maintains I (lift r).
Proof. by intros w HI. Qed.

Lemma maintains_getThis I : maintains I getThis.
Proof. by intros w HI. Qed.

Lemma maintains_bind {A B} I (m : M A) (k : A → M B) :
  maintains I m → (∀ a, maintains I (k a)) → maintains I (bind m k).
Proof.
  intros Hm Hk w HI. unfold bind. specialize (Hm w HI).
  destruct (m w) as [w' [a|e]]; simpl in *; [by apply Hk|done].
Qed.

Lemma keeps_maintains {X A} (f : World → X) (m : M A) :
  keeps f m ↔ ∀ x, maintains (λ w, f w = x) m.
Proof.
  split.
  - intros Hk x w <-. apply Hk.
  - intros Hm w. by apply (Hm (f w)).
Qed.

Lemma keeps_ret {X A} (f : World → X) (a : A) : keeps f (ret a).
Proof. done. Qed.

Lemma keeps_throw {X A} (f : World → X) e : keeps f (throw (A := A) e).
Proof. done. Qed.

Lemma keeps_lift {X A} (f : World → X) (r : Result A) : keeps f (lift r).
Proof. done. Qed.

Lemma keeps_getThis {X} (f : World → X) : keeps f getThis.
Proof. done. Qed.

Lemma keeps_bind {X A B} (f : World → X) (m : M A) (k : A → M B) :
  keeps f m → (∀ a, keeps f (k a)) → keeps f (bind m k).
Proof.
  rewrite !keeps_maintains. intros Hm Hk x. apply maintains_bind; [done|].
  intros a. revert x. by apply keeps_maintains.
Qed.

(** Take a computation apart down to its assignments, its calls and the
    methods it invokes. *)
Ltac keeps_structure :=
  repeat match goal with
         | |- keeps _ (ret _) => apply keeps_ret
         | |- keeps _ (throw _) => apply keeps_throw
         | |- keeps _ (lift _) => apply keeps_lift
         | |- keeps _ getThis => apply keeps_getThis
         | |- keeps _ (bind _ _) => apply keeps_bind; [|intros ?]
         | |- keeps _ (match ?x with _ => _ end) => destruct x
         | |- keeps _ (let _ := _ in _) => cbv zeta
         end.

Ltac maintains_structure :=
  repeat match goal with
         | |- maintains _ (ret _) => apply maintains_ret
         | |- maintains _ (throw _) => apply maintains_throw
         | |- maintains _ (lift _) => apply maintains_lift
         | |- maintains _ getThis => apply maintains_getThis
         | |- maintains _ (bind _ _) => apply maintains_bind; [|intros ?]
         | |- maintains _ (match ?x with _ => _ end) => destruct x
         | |- maintains _ (let _ := _ in _) => cbv zeta
         end.

(** ** [createServices] *)

Lemma set_serviceMap_same g : set_serviceMap (serviceMap g) g = g.
Proof. by destruct g. Qed.

(** Only [serviceMap] changes, and nothing is logged. *)
Lemma createServices_frame l :
  ∀ w, this (createServices l w).1
         = set_serviceMap (serviceMap (this (createServices l w).1)) (this w)
       ∧ calls (createServices l w).1 = calls w
       ∧ reactions (createServices l w).1 = reactions w.
Proof.
  induction l as [|d l IH]; intros w.
  - simpl. by rewrite set_serviceMap_same.
  - simpl. run.
    destruct (negb (truthy (url d)) && negb (isLocalConfig (config (this w)))); simpl.
    { by rewrite set_serviceMap_same. }
    destruct (Config.buildService (config (this w))) as [f|]; simpl.
    + destruct (f d) as [h|e]; simpl.
      * specialize (IH {| this := set_serviceMap (<[name d:=h]> (serviceMap (this w))) (this w);
                          calls := calls w; reactions := reactions w |}).
        simpl in IH. destruct IH as (IH1 & IH2 & IH3). by rewrite IH1 at 1.
      * by rewrite set_serviceMap_same.
    + specialize (IH {| this := set_serviceMap (<[name d:=RemoteGraphQLDataSource (url d)]>
                                                  (serviceMap (this w))) (this w);
                        calls := calls w; reactions := reactions w |}).
      simpl in IH. destruct IH as (IH1 & IH2 & IH3). by rewrite IH1 at 1.
Qed.

(** Entries under other names stay; when it returns, every name of the list
    has the handle built for a service of that name. *)
Lemma createServices_lookup l :
  ∀ w,
    (∀ n, n ∉ map name l →
          serviceMap (this (createServices l w).1) !! n = serviceMap (this w) !! n)
    ∧ ((createServices l w).2 = Return tt →
       ∀ n, n ∈ map name l →
            ∃ d h, d ∈ l ∧ name d = n ∧ dataSourceFor (config (this w)) d = Return h
                   ∧ serviceMap (this (createServices l w).1) !! n = Some h).
Proof.
  induction l as [|d l IH]; intros w.
  { split; [done|]. intros _ n Hn. by apply elem_of_nil in Hn. }
  simpl. run. unfold dataSourceFor.
  destruct (negb (truthy (url d)) && negb (isLocalConfig (config (this w)))); simpl.
  { split; [done|]. intros [=]. }
  assert (∀ h,
    let w2 := {| this := set_serviceMap (<[name d:=h]> (serviceMap (this w))) (this w);
                 calls := calls w; reactions := reactions w |} in
    dataSourceFor (config (this w)) d = Return h →
    (∀ n, n ∉ name d :: map name l →
          serviceMap (this (createServices l w2).1) !! n = serviceMap (this w) !! n)
    ∧ ((createServices l w2).2 = Return tt →
       ∀ n, n ∈ name d :: map name l →
            ∃ d' h', d' ∈ d :: l ∧ name d' = n
                     ∧ dataSourceFor (config (this w)) d' = Return h'
                     ∧ serviceMap (this (createServices l w2).1) !! n = Some h')) as Hstep.
  { intros h w2 Hh. destruct (IH w2) as [IH1 IH2]. split.
    - intros n Hn. apply not_elem_of_cons in Hn as [Hne Hn].
      rewrite (IH1 n Hn). simpl. unfold ServiceMap. by rewrite lookup_insert_ne.
    - intros Hret n Hn.
      destruct (decide (n ∈ map name l)) as [Hin|Hnotin].
      + destruct (IH2 Hret n Hin) as (d' & h' & Hd' & Hname & Hds & Hlook).
        exists d', h'. split_and!; try done. by apply list_elem_of_further.
      + apply elem_of_cons in Hn as [->|Hn]; [|done].
        exists d, h. split_and!; try done; [apply list_elem_of_here|].
        rewrite (IH1 _ Hnotin). simpl. unfold ServiceMap. by rewrite lookup_insert_eq. }
  unfold dataSourceFor in Hstep.
  destruct (Config.buildService (config (this w))) as [f|]; simpl.
  - destruct (f d) as [h|e] eqn:Hf; simpl.
    + destruct (createServices l _) as [w3 [[]|e]] eqn:Hrest; simpl;
        specialize (Hstep h eq_refl); simpl in Hstep; rewrite Hrest in Hstep; apply Hstep.
    + split; [done|]. intros [=].
  - destruct (createServices l _) as [w3 [[]|e]] eqn:Hrest; simpl;
      specialize (Hstep _ eq_refl); simpl in Hstep; rewrite Hrest in Hstep; apply Hstep.
Qed.

Lemma createServices_cons d l w :
  createServices (d :: l) w =
    if negb (truthy (url d)) && negb (isLocalConfig (config (this w)))
    then (w, Throw (missingUrl d))
    else match dataSourceFor (config (this w)) d with
         | Return h =>
             createServices l
               {| this := set_serviceMap (<[name d:=h]> (serviceMap (this w))) (this w);
                  calls := calls w; reactions := reactions w |}
         | Throw e => (w, Throw e)
         end.
Proof.
  simpl. run. unfold dataSourceFor, missingUrl.
  destruct (negb (truthy (url d)) && negb (isLocalConfig (config (this w)))); [done|].
  simpl. destruct (Config.buildService (config (this w))) as [f|]; simpl; [|done].
  by destruct (f d).
Qed.

Lemma registrable_createServices_returns l :
  ∀ w, Forall (registrable (config (this w))) l → (createServices l w).2 = Return tt.
Proof.
  induction l as [|d l IH]; intros w Hall; [done|].
  apply Forall_cons in Hall as [[Hurl [h Hh]] Hall].
  rewrite createServices_cons, Hh.
  assert (negb (truthy (url d)) && negb (isLocalConfig (config (this w))) = false) as ->.
  { by destruct Hurl as [-> | ->]; rewrite ?andb_false_r. }
  by apply IH.
Qed.

Lemma createServices_returns_registrable l :
  ∀ w, (createServices l w).2 = Return tt → Forall (registrable (config (this w))) l.
Proof.
  induction l as [|d l IH]; intros w Hreturned; [by constructor|].
  rewrite createServices_cons in Hreturned.
  destruct (negb (truthy (url d)) && negb (isLocalConfig (config (this w)))) eqn:Hurl;
    [done|].
  destruct (dataSourceFor (config (this w)) d) as [h|e] eqn:Hh; [|done].
  apply IH in Hreturned. constructor; [|done]. split; [|by exists h].
  apply andb_false_iff in Hurl as [Hurl|Hurl]; apply negb_false_iff in Hurl; auto.
Qed.

(** When [createServices] throws, it has registered the services before the
    first one it cannot register, and has stopped there. *)
Lemma createServices_stops l :
  ∀ w e,
    (createServices l w).2 = Throw e →
    ∃ pre d post,
      l = (pre ++ d :: post)%list
      ∧ Forall (registrable (config (this w))) pre
      ∧ ¬ registrable (config (this w)) d
      ∧ (createServices l w).1 = (createServices pre w).1
      ∧ (createServices pre w).2 = Return tt.
Proof.
  induction l as [|d l IH]; intros w e Hthrown; [done|].
  rewrite createServices_cons in Hthrown. rewrite createServices_cons.
  destruct (negb (truthy (url d)) && negb (isLocalConfig (config (this w)))) eqn:Hurl.
  { exists [], d, l. split_and!; try done. intros [[Hd|Hd] _]; rewrite Hd in Hurl;
      by rewrite ?andb_false_r in Hurl. }
  destruct (dataSourceFor (config (this w)) d) as [h|e'] eqn:Hh.
  - destruct (IH _ _ Hthrown) as (pre & d' & post & -> & Hpre & Hd' & Hworld & Hreturned).
    exists (d :: pre), d', post. simpl in Hpre, Hd'. split_and!; try done.
    + constructor; [|done]. split; [|by exists h].
      apply andb_false_iff in Hurl as [Hurl|Hurl]; apply negb_false_iff in Hurl; auto.
    + simpl app. by rewrite createServices_cons, Hurl, Hh.
    + simpl app. by rewrite createServices_cons, Hurl, Hh.
  - exists [], d, l. split_and!; try done. intros [_ [h Habsurd]]. congruence.
Qed.

(** ** [createSchema] when composition fails *)

Lemma createSchema_failed services w errs :
  compositionErrors (composeAndValidate services) = Some errs → errs ≠ [] →
  createSchema services w =
    let w1 := {| this := this w; calls := calls w ++ [logger_debug (composingMessage services)];
                 reactions := reactions w |} in
    match experimental_didFailComposition (this w) with
    | Some didFailComposition =>
        ({| this := this w;
            calls := calls w1 ++ [call_didFailComposition errs services];
            reactions := reactions w |},
         match didFailComposition errs services with
         | Return _ => Throw (GraphQLSchemaValidationError errs)
         | Throw e => Throw e
         end)
    | None => (w1, Throw (GraphQLSchemaValidationError errs))
    end.
Proof.
  intros Herrs Hne. unfold createSchema. run. fold (composingMessage services).
  rewrite Herrs. destruct errs as [|e errs]; [done|].
  destruct (experimental_didFailComposition (this w)) as [f|]; simpl; [|done].
  by destruct (f (e :: errs) services).
Qed.

Lemma failed_composition_keeps_gateway services w errs :
  compositionErrors (composeAndValidate services) = Some errs → errs ≠ [] →
  this (createSchema services w).1 = this w
  ∧ reactions (createSchema services w).1 = reactions w.
Proof.
  intros Herrs Hne. rewrite (createSchema_failed _ _ _ Herrs Hne). cbv zeta.
  by destruct (experimental_didFailComposition (this w)).
Qed.


(** ** [createSchema] when composition succeeds *)

Lemma createSchema_composed services w :
  compositionFailed services = false →
  createSchema services w =
    let currentSchema :=
      wrapSchemaWithAliasResolver (composedSchema (composeAndValidate services)) in
    (match experimental_didUpdateSchema (this w) with
     | Some didUpdateSchema =>
         emit (call_didUpdateSchema (schema (this w)) currentSchema) ;;
         lift (didUpdateSchema (schema (this w)) currentSchema)
     | None => ret tt
     end ;;
     createServices (map endpoint services) ;;
     emit (logger_debug "Schema loaded and ready for execution") ;;
     modifyThis (set_isReady true))
      {| this := set_schema (Some currentSchema) (this w);
         calls := calls w ++ [logger_debug (composingMessage services)];
         reactions := reactions w |}.
Proof.
  unfold compositionFailed, createSchema. intros Hok. run.
  fold (composingMessage services).
  destruct (compositionErrors (composeAndValidate services)) as [[|e errs]|]; done.
Qed.

(** The new schema is in place whatever happens next; apart from [schema],
    [serviceMap] and [isReady] the gateway is as before. *)
Lemma createSchema_composed_this services w :
  compositionFailed services = false →
  let w' := (createSchema services w).1 in
  this w' = set_isReady (isReady (this w'))
              (set_serviceMap (serviceMap (this w'))
                 (set_schema
                    (Some (wrapSchemaWithAliasResolver
                             (composedSchema (composeAndValidate services))))
                    (this w)))
  ∧ reactions w' = reactions w
  ∧ ((createSchema services w).2 = Return tt → isReady (this w') = true)
  ∧ (isReady (this w') = true →
     isReady (this w) = true ∨ (createSchema services w).2 = Return tt)
  ∧ (isReady (this w) = true → isReady (this w') = true).
Proof.
  intros Hok. cbv zeta. rewrite (createSchema_composed _ _ Hok). cbv zeta.
  set (cur := wrapSchemaWithAliasResolver _).
  set (msg := logger_debug (composingMessage services)).
  assert (∀ cs,
    let m := (createServices (map endpoint services) ;;
              emit (logger_debug "Schema loaded and ready for execution") ;;
              modifyThis (set_isReady true)) in
    let w1 := {| this := set_schema (Some cur) (this w); calls := cs;
                 reactions := reactions w |} in
    this (m w1).1 = set_isReady (isReady (this (m w1).1))
                      (set_serviceMap (serviceMap (this (m w1).1))
                         (set_schema (Some cur) (this w)))
    ∧ reactions (m w1).1 = reactions w
    ∧ ((m w1).2 = Return tt → isReady (this (m w1).1) = true)
    ∧ (isReady (this (m w1).1) = true →
       isReady (this w) = true ∨ (m w1).2 = Return tt)
    ∧ (isReady (this w) = true → isReady (this (m w1).1) = true)) as Hrest.
  { intros cs m w1. subst m. run.
    destruct (createServices_frame (map endpoint services) w1) as (Hthis & _ & Hreact).
    destruct (createServices (map endpoint services) w1) as [w2 [[]|e]]; simpl in *.
    - rewrite Hthis. simpl. split_and!; auto.
    - assert (isReady (this w2) = isReady (this w)) as Hready by (by rewrite Hthis).
      rewrite Hready. split_and!.
      + rewrite Hthis at 1. by destruct (this w).
      + done.
      + done.
      + auto.
      + done. }
  destruct (experimental_didUpdateSchema (this w)) as [f|]; run.
  - destruct (f (schema (this w)) cur) as [[]|e]; simpl.
    + apply Hrest.
    + split_and!.
      * by destruct (this w).
      * done.
      * done.
      * auto.
      * done.
  - apply Hrest.
Qed.

Lemma createSchema_returns_composed services w :
  (createSchema services w).2 = Return tt → compositionFailed services = false.
Proof.
  intros Hret. unfold compositionFailed.
  destruct (compositionErrors (composeAndValidate services)) as [[|e errs]|] eqn:Herrs; try done.
  rewrite (createSchema_failed _ _ _ Herrs) in Hret by done. cbv zeta in Hret.
  destruct (experimental_didFailComposition (this w)) as [f|]; simpl in Hret; [|done].
  by destruct (f (e :: errs) services).
Qed.

(** ** Composition failures and the observers *)

(** The constructor composes a local service list while the observers of
    the gateway are still unset: no observer is called, and a composition
    that fails throws [GraphQLSchemaValidationError]. *)
Lemma createSchema_before_callbacks NODE_ENV c cs l :
  List.filter isObserverCall cs = [] →
  let w := {| this := freshGateway NODE_ENV c; calls := cs; reactions := [] |} in
  List.filter isObserverCall (calls (createSchema l w).1) = []
  ∧ ∀ errs, compositionErrors (composeAndValidate l) = Some errs → errs ≠ [] →
            (createSchema l w).2 = Throw (GraphQLSchemaValidationError errs).
Proof.
  intros Hcs. cbv zeta. destruct (compositionFailed l) eqn:Hfailed.
  - unfold compositionFailed in Hfailed.
    destruct (compositionErrors (composeAndValidate l)) as [[|e errs]|] eqn:Herrs;
      try done.
    rewrite (createSchema_failed _ _ _ Herrs) by done. simpl.
    rewrite List.filter_app, Hcs. split; [done|]. by intros errs' [= <-].
  - split.
    + rewrite (createSchema_composed _ _ Hfailed). run.
      match goal with
      | |- context [createServices ?l' ?v] =>
          destruct (createServices_frame l' v) as (_ & Hcalls & _);
          destruct (createServices l' v) as [w2 [[]|e]]; simpl in *
      end; rewrite Hcalls, ?List.filter_app, Hcs; done.
    + intros errs Herrs Hne. unfold compositionFailed in Hfailed. rewrite Herrs in Hfailed.
      by destruct errs.
Qed.


(** ** [executor] *)

Lemma set_queryPlanStore_same g : set_queryPlanStore (queryPlanStore g) g = g.
Proof. by destruct g. Qed.

Section Executor.
Variables (w : World) (rc : GraphQLRequestContext) (ctx : OperationContext).
Hypothesis Hctx :
  buildOperationContext (schema (this w)) (document rc) (operationName (request rc))
    = Return ctx.

Lemma served_at (g : ApolloGateway) (store : option QueryPlanCache) cs rs queryPlan jobs :
  (gateway <- getThis ;;
   emit (call_executeQueryPlan queryPlan (serviceMap gateway) rc ctx) ;;
   await jobs ;;
   response <- lift (executeQueryPlan queryPlan (serviceMap gateway) rc ctx) ;;
   match experimental_didResolveQueryPlan gateway with
   | Some didResolveQueryPlan =>
       emit (call_didResolveQueryPlan queryPlan (serviceMap gateway) ctx) ;;
       lift (didResolveQueryPlan queryPlan (serviceMap gateway) ctx)
   | None => ret tt
   end ;;
   if shouldShowQueryPlan (config gateway) (request rc)
   then
     emit (logger_debug (serializeQueryPlan queryPlan)) ;;
     ret {| data := data response; errors := errors response;
            responseExtensions :=
              Some {[ "__queryPlanExperimental" :=
                        SerializedQueryPlan (serializeQueryPlan queryPlan) ]} |}
   else ret response)
    {| this := set_queryPlanStore store g; calls := cs; reactions := rs |}
  = ({| this := set_queryPlanStore store g;
        calls := (cs ++ (served g rc ctx queryPlan jobs).1)%list; reactions := rs |},
     (served g rc ctx queryPlan jobs).2).
Proof.
  unfold served. run.
  destruct (executeQueryPlan queryPlan (serviceMap g) rc ctx) as [response|e]; simpl;
    [|by rewrite <- !app_assoc].
  destruct (experimental_didResolveQueryPlan g) as [f|]; simpl.
  - destruct (f queryPlan (serviceMap g) ctx) as [[]|e]; simpl;
      [|by rewrite <- !app_assoc].
    destruct (shouldShowQueryPlan (config g) (request rc)); simpl;
      by rewrite <- !app_assoc.
  - destruct (shouldShowQueryPlan (config g) (request rc)); simpl;
      by rewrite <- ?app_assoc, ?app_nil_r.
Qed.

Lemma executor_without_store :
  queryPlanStore (this w) = None →
  executor rc w =
    match buildQueryPlan ctx with
    | Return queryPlan =>
        ({| this := this w; calls := calls w ++ (served (this w) rc ctx queryPlan []).1;
            reactions := reactions w |},
         (served (this w) rc ctx queryPlan []).2)
    | Throw e => (w, Throw e)
    end.
Proof.
  intros Hstore. unfold executor. run. rewrite Hctx. simpl.
  rewrite Hstore. simpl. destruct (buildQueryPlan ctx) as [queryPlan|e]; simpl; [|done].
  rewrite Hstore. simpl.
  pose proof (served_at (this w) None (calls w) (reactions w) queryPlan []) as Hserved.
  run. assert (set_queryPlanStore None (this w) = this w) as Hsame.
  { rewrite <- Hstore. apply set_queryPlanStore_same. }
  rewrite Hsame in Hserved. destruct w. simpl in *. apply Hserved.
Qed.

Lemma executor_hit store store' queryPlan :
  queryPlanStore (this w) = Some store →
  cache_get store (queryHash rc) = (store', Some queryPlan) →
  executor rc w =
    ({| this := set_queryPlanStore (Some store') (this w);
        calls := calls w ++ (served (this w) rc ctx queryPlan []).1;
        reactions := reactions w |},
     (served (this w) rc ctx queryPlan []).2).
Proof.
  intros Hstore Hget. unfold executor. run. rewrite Hctx. simpl.
  rewrite Hstore. simpl. rewrite Hget. run.
  apply (served_at (this w) (Some store') (calls w) (reactions w) queryPlan []).
Qed.

Lemma executor_miss store store' :
  queryPlanStore (this w) = Some store →
  cache_get store (queryHash rc) = (store', None) →
  executor rc w =
    match buildQueryPlan ctx with
    | Return queryPlan =>
        let write := cache_set store' (queryHash rc) queryPlan in
        ({| this := set_queryPlanStore (Some write.1) (this w);
            calls := calls w ++ (served (this w) rc ctx queryPlan (warnedAtAwait write.2)).1;
            reactions := reactions w ++ leftWaiting write.2 |},
         (served (this w) rc ctx queryPlan (warnedAtAwait write.2)).2)
    | Throw e =>
        ({| this := set_queryPlanStore (Some store') (this w); calls := calls w;
            reactions := reactions w |}, Throw e)
    end.
Proof.
  intros Hstore Hget. unfold executor. run. rewrite Hctx. simpl.
  rewrite Hstore. simpl. rewrite Hget. run.
  destruct (buildQueryPlan ctx) as [queryPlan|e]; simpl; [|done].
  destruct (cache_set store' (queryHash rc) queryPlan) as [store'' [[[]|err]|ending]]; run.
  - rewrite (app_nil_r (reactions w)).
    apply (served_at (this w) (Some store'') (calls w) (reactions w) queryPlan []).
  - rewrite (app_nil_r (reactions w)).
    apply (served_at (this w) (Some store'') (calls w) (reactions w) queryPlan
             [logger_warn "Could not store queryPlan" err]).
  - apply (served_at (this w) (Some store'') (calls w)
             (reactions w ++ [catch_warn "Could not store queryPlan" ending]) queryPlan []).
Qed.

(** The outcome of a request does not depend on what runs while the
    executor awaits the execution of the plan. *)
Lemma served_outcome g queryPlan jobs :
  (served g rc ctx queryPlan jobs).2 = (served g rc ctx queryPlan []).2.
Proof.
  unfold served.
  destruct (executeQueryPlan queryPlan (serviceMap g) rc ctx) as [response|e]; [|done].
  destruct (experimental_didResolveQueryPlan g) as [f|]; simpl.
  - destruct (f queryPlan (serviceMap g) ctx) as [[]|e]; [|done].
    by destruct (shouldShowQueryPlan (config g) (request rc)).
  - by destruct (shouldShowQueryPlan (config g) (request rc)).
Qed.

(** With the cache and without it, hit or miss: the executor runs the plan
    the cache has under the hash of the request, else the plan it builds. *)
Lemma executor_serves :
  match cachedPlan (this w) (queryHash rc) with
  | Some queryPlan =>
      calls (executor rc w).1 = (calls w ++ (served (this w) rc ctx queryPlan []).1)%list
      ∧ (executor rc w).2 = (served (this w) rc ctx queryPlan []).2
  | None =>
      match buildQueryPlan ctx with
      | Return queryPlan =>
          let jobs := awaitedJobs (this w) (queryHash rc) queryPlan in
          calls (executor rc w).1
          = (calls w ++ (served (this w) rc ctx queryPlan jobs).1)%list
          ∧ (executor rc w).2 = (served (this w) rc ctx queryPlan []).2
      | Throw e =>
          calls (executor rc w).1 = calls w ∧ (executor rc w).2 = Throw e
      end
  end.
Proof.
  unfold cachedPlan, awaitedJobs.
  destruct (queryPlanStore (this w)) as [store|] eqn:Hstore.
  - destruct (cache_get store (queryHash rc)) as [store' [queryPlan|]] eqn:Hget; simpl.
    + by rewrite (executor_hit _ _ _ Hstore Hget).
    + rewrite (executor_miss _ _ Hstore Hget).
      destruct (buildQueryPlan ctx); [|done]. simpl. by rewrite served_outcome.
  - rewrite (executor_without_store Hstore). by destruct (buildQueryPlan ctx).
Qed.

End Executor.

Lemma plansExecuted_app l l' :
  plansExecuted (l ++ l') = (plansExecuted l ++ plansExecuted l')%list.
Proof. apply omap_app. Qed.

(** The calls of a request that holds a plan: the execution of the plan,
    what runs while the executor awaits it, and then neither an execution
    nor a warning. *)
Lemma served_calls g rc ctx queryPlan :
  ∃ rest,
    plansExecuted rest = [] ∧ List.filter isWarning rest = []
    ∧ List.filter isServiceListReport rest = []
    ∧ ∀ jobs, (served g rc ctx queryPlan jobs).1
              = (call_executeQueryPlan queryPlan (serviceMap g) rc ctx :: jobs ++ rest)%list.
Proof.
  unfold served.
  destruct (executeQueryPlan queryPlan (serviceMap g) rc ctx) as [response|e];
    [|by exists []; split_and!; [..|intros jobs; rewrite app_nil_r]].
  destruct (experimental_didResolveQueryPlan g) as [f|]; simpl.
  - destruct (f queryPlan (serviceMap g) ctx) as [[]|e];
      [|by exists [call_didResolveQueryPlan queryPlan (serviceMap g) ctx]].
    destruct (shouldShowQueryPlan (config g) (request rc)).
    + by exists [call_didResolveQueryPlan queryPlan (serviceMap g) ctx;
                 logger_debug (serializeQueryPlan queryPlan)].
    + by exists [call_didResolveQueryPlan queryPlan (serviceMap g) ctx].
  - destruct (shouldShowQueryPlan (config g) (request rc)).
    + by exists [logger_debug (serializeQueryPlan queryPlan)].
    + exists []. split_and!; [done..|]. intros jobs. by rewrite app_nil_r.
Qed.

Lemma served_besides store g rc ctx queryPlan jobs :
  served (set_queryPlanStore store g) rc ctx queryPlan jobs = served g rc ctx queryPlan jobs.
Proof. done. Qed.

Lemma plansExecuted_served g rc ctx queryPlan jobs :
  plansExecuted jobs = [] →
  plansExecuted (served g rc ctx queryPlan jobs).1 = [queryPlan].
Proof.
  intros Hjobs. destruct (served_calls g rc ctx queryPlan) as (rest & Hrest & _ & _ & ->).
  change (queryPlan :: plansExecuted (jobs ++ rest) = [queryPlan]).
  by rewrite plansExecuted_app, Hjobs, Hrest.
Qed.

Lemma warnings_served g rc ctx queryPlan jobs :
  List.filter isWarning (served g rc ctx queryPlan jobs).1 = List.filter isWarning jobs.
Proof.
  destruct (served_calls g rc ctx queryPlan) as (rest & _ & Hrest & _ & ->).
  simpl. by rewrite List.filter_app, Hrest, app_nil_r.
Qed.

Lemma execution_served g rc ctx queryPlan jobs :
  call_executeQueryPlan queryPlan (serviceMap g) rc ctx ∈ (served g rc ctx queryPlan jobs).1.
Proof.
  destruct (served_calls g rc ctx queryPlan) as (rest & _ & _ & _ & ->). apply list_elem_of_here.
Qed.

Lemma plansExecuted_warnedAtAwait write : plansExecuted (warnedAtAwait write) = [].
Proof. by destruct write as [[[]|err]|ending]. Qed.

Lemma plansExecuted_awaitedJobs g key queryPlan :
  plansExecuted (awaitedJobs g key queryPlan) = [].
Proof.
  unfold awaitedJobs. destruct (queryPlanStore g); [apply plansExecuted_warnedAtAwait|done].
Qed.

Lemma warnings_warnedAtAwait write :
  List.filter isWarning (warnedAtAwait write) = warnedAtAwait write.
Proof. by destruct write as [[[]|err]|ending]. Qed.

(** C5: when the plan cache has no entry under the queryHash of the request,
    or when there is no cache, the executor builds a plan with
    [buildQueryPlan(operationContext)]; the plan handed to
    [executeQueryPlan] is the cached plan under that hash, else the plan
    just built, and if no plan can be built nothing is executed and the
    request fails with the error of the planner. *)
Theorem executor_plan_fallback w rc ctx :
  buildOperationContext (schema (this w)) (document rc) (operationName (request rc))
    = Return ctx →
  let w' := (executor rc w).1 in
  match cachedPlan (this w) (queryHash rc) with
  | Some queryPlan =>
      plansExecuted (calls w') = (plansExecuted (calls w) ++ [queryPlan])%list
      ∧ call_executeQueryPlan queryPlan (serviceMap (this w)) rc ctx ∈ calls w'
  | None =>
      match buildQueryPlan ctx with
      | Return queryPlan =>
          plansExecuted (calls w') = (plansExecuted (calls w) ++ [queryPlan])%list
          ∧ call_executeQueryPlan queryPlan (serviceMap (this w)) rc ctx ∈ calls w'
      | Throw e =>
          plansExecuted (calls w') = plansExecuted (calls w)
          ∧ (executor rc w).2 = Throw e
      end
  end.
Proof.
  intros Hctx. cbv zeta.
  pose proof (executor_serves w rc ctx Hctx) as Hserves.
  assert (∀ queryPlan jobs,
    plansExecuted jobs = [] →
    calls (executor rc w).1 = (calls w ++ (served (this w) rc ctx queryPlan jobs).1)%list →
    plansExecuted (calls (executor rc w).1) = (plansExecuted (calls w) ++ [queryPlan])%list
    ∧ call_executeQueryPlan queryPlan (serviceMap (this w)) rc ctx
        ∈ calls (executor rc w).1) as Hplan.
  { intros queryPlan jobs Hjobs ->.
    rewrite plansExecuted_app, plansExecuted_served by done. split; [done|].
    apply elem_of_app. right. apply execution_served. }
  destruct (cachedPlan (this w) (queryHash rc)) as [queryPlan|].
  - by apply (Hplan queryPlan []), Hserves.
  - destruct (buildQueryPlan ctx) as [queryPlan|e].
    + apply (Hplan queryPlan (awaitedJobs (this w) (queryHash rc) queryPlan)),
        Hserves. apply plansExecuted_awaitedJobs.
    + destruct Hserves as [-> ->]. done.
Qed.

(** C3: when a freshly built plan is stored, the write is not waited for.
    Whether the promise of the write is fulfilled, rejected, settles only
    after the request or never settles, the executor hands the plan to
    [executeQueryPlan] and ends with the outcome the same request has on a
    gateway without a plan cache.  A write that is rejected by the time the
    executor resumes from awaiting the execution has its warning logged
    then; a write that is not settled by then leaves its reaction waiting
    when the executor returns, and when that reaction runs, a failed write
    adds one warning to the log and nothing else.  No other warning is
    logged. *)
Theorem plan_cache_write_is_detached w rc ctx store store' queryPlan :
  buildOperationContext (schema (this w)) (document rc) (operationName (request rc))
    = Return ctx →
  queryPlanStore (this w) = Some store →
  cache_get store (queryHash rc) = (store', None) →
  buildQueryPlan ctx = Return queryPlan →
  let w' := (executor rc w).1 in
  let write := cache_set store' (queryHash rc) queryPlan in
  (executor rc w).2 = (executor rc (withoutQueryPlanStore w)).2
  ∧ plansExecuted (calls w') = (plansExecuted (calls w) ++ [queryPlan])%list
  ∧ queryPlanStore (this w') = Some write.1
  ∧ (∃ rest,
       calls w' = (calls w
                   ++ call_executeQueryPlan queryPlan (serviceMap (this w)) rc ctx
                      :: warnedAtAwait write.2 ++ rest)%list
       ∧ List.filter isWarning rest = []
       ∧ calls (executor rc (withoutQueryPlanStore w)).1
         = (calls w
            ++ call_executeQueryPlan queryPlan (serviceMap (this w)) rc ctx :: rest)%list)
  ∧ reactions w' = (reactions w ++ leftWaiting write.2)%list
  ∧ warnings w' = (warnings w ++ warnedAtAwait write.2)%list
  ∧ (∀ v i ending,
       reactions v !! i = Some (catch_warn "Could not store queryPlan" ending) →
       runReaction i v =
         match ending with
         | Some outcome =>
             ({| this := this v;
                 calls := (calls v ++ match outcome with
                                      | Throw err =>
                                          [logger_warn "Could not store queryPlan" err]
                                      | Return _ => []
                                      end)%list;
                 reactions := delete i (reactions v) |}, Return tt)
         | None => (v, Return tt)
         end).
Proof.
  intros Hctx Hstore Hget Hplan. cbv zeta.
  rewrite (executor_miss w rc ctx Hctx _ _ Hstore Hget), Hplan.
  rewrite (executor_without_store (withoutQueryPlanStore w) rc ctx) by done.
  rewrite Hplan. cbv zeta. simpl fst. simpl snd.
  set (write := cache_set store' (queryHash rc) queryPlan).
  split_and!; try done.
  - by rewrite served_outcome.
  - simpl. rewrite plansExecuted_app, plansExecuted_served; [done|].
    apply plansExecuted_warnedAtAwait.
  - unfold withoutQueryPlanStore. simpl. rewrite served_besides.
    destruct (served_calls (this w) rc ctx queryPlan) as (rest & _ & Hrest & _ & Hcalls).
    exists rest. by rewrite !Hcalls.
  - unfold warnings. simpl.
    by rewrite List.filter_app, warnings_served, warnings_warnedAtAwait.
  - intros v i ending Hv. unfold runReaction. rewrite Hv.
    destruct ending as [[[]|err]|]; simpl; [by rewrite app_nil_r|done..].
Qed.

(** The executor writes no field but [queryPlanStore]. *)
Lemma executor_keeps_gateway rc : keeps besidesQueryPlanStore (executor rc).
Proof.
  unfold executor, nonNull, queryPlanStore_get, queryPlanStore_set. keeps_structure; done.
Qed.

(** A turn of the job queue leaves the gateway as it is. *)
Lemma runReaction_this i w : this (runReaction i w).1 = this w.
Proof. unfold runReaction. by destruct (reactions w !! i) as [[message [[[]|err]|]]|]. Qed.

(** ** No method reports a service list *)

Lemma emit_keeps_serviceListReports c :
  isServiceListReport c = false → keeps serviceListReports (emit c).
Proof.
  intros Hc w. unfold serviceListReports. simpl. rewrite List.filter_app. simpl.
  rewrite Hc. apply app_nil_r.
Qed.

Lemma createServices_keeps_serviceListReports l :
  keeps serviceListReports (createServices l).
Proof.
  intros w. unfold serviceListReports.
  by destruct (createServices_frame l w) as (_ & -> & _).
Qed.

Lemma createSchema_keeps_serviceListReports services :
  keeps serviceListReports (createSchema services).
Proof.
  unfold createSchema. keeps_structure;
    solve [ done | by apply emit_keeps_serviceListReports
          | apply createServices_keeps_serviceListReports ].
Qed.

Lemma loadServiceDefinitions_keeps_serviceListReports replies c :
  keeps serviceListReports (loadServiceDefinitions replies c).
Proof.
  unfold loadServiceDefinitions. keeps_structure;
    solve [ done | by apply emit_keeps_serviceListReports
          | apply createServices_keeps_serviceListReports ].
Qed.

Lemma load_keeps_serviceListReports replies : keeps serviceListReports (load replies).
Proof.
  unfold load. keeps_structure;
    solve [ done | by apply emit_keeps_serviceListReports
          | apply createSchema_keeps_serviceListReports
          | apply loadServiceDefinitions_keeps_serviceListReports ].
Qed.

Lemma executor_keeps_serviceListReports rc : keeps serviceListReports (executor rc).
Proof.
  intros w. unfold serviceListReports.
  destruct (buildOperationContext (schema (this w)) (document rc) (operationName (request rc)))
    as [ctx|e] eqn:Hctx; [|by unfold executor; run; rewrite Hctx].
  pose proof (executor_serves w rc ctx Hctx) as Hserves.
  assert (∀ queryPlan jobs,
    List.filter isServiceListReport jobs = [] →
    List.filter isServiceListReport (calls w ++ (served (this w) rc ctx queryPlan jobs).1)
    = List.filter isServiceListReport (calls w)) as Hserved.
  { intros queryPlan jobs Hjobs.
    destruct (served_calls (this w) rc ctx queryPlan) as (rest & _ & _ & Hrest & ->).
    rewrite List.filter_app. simpl. by rewrite List.filter_app, Hjobs, Hrest, app_nil_r. }
  destruct (cachedPlan (this w) (queryHash rc)) as [queryPlan|].
  - destruct Hserves as [-> _]. by apply Hserved.
  - destruct (buildQueryPlan ctx) as [queryPlan|e'].
    + destruct Hserves as [-> _]. apply Hserved. unfold awaitedJobs.
      destruct (queryPlanStore (this w)); [|done].
      by destruct (cache_set _ _ _).2 as [[[]|err]|ending].
    + by destruct Hserves as [-> _].
Qed.

Lemma runReaction_keeps_serviceListReports i : keeps serviceListReports (runReaction i).
Proof.
  intros w. unfold runReaction.
  destruct (reactions w !! i) as [[message [[[]|err]|]]|]; try done.
  exact (emit_keeps_serviceListReports (logger_warn message err) eq_refl
           {| this := this w; calls := calls w; reactions := delete i (reactions w) |}).
Qed.

Lemma constructor_keeps_serviceListReports c : keeps serviceListReports (constructor c).
Proof.
  unfold constructor, initializeQueryPlanStore. keeps_structure;
    solve [ done | by apply emit_keeps_serviceListReports
          | apply createSchema_keeps_serviceListReports ].
Qed.

Lemma perform_keeps_serviceListReports op w :
  serviceListReports (perform op w) = serviceListReports w.
Proof.
  destruct op; simpl.
  - apply load_keeps_serviceListReports.
  - apply createSchema_keeps_serviceListReports.
  - apply createServices_keeps_serviceListReports.
  - apply loadServiceDefinitions_keeps_serviceListReports.
  - apply executor_keeps_serviceListReports.
  - done.
  - apply runReaction_keeps_serviceListReports.
Qed.

(** Whatever is configured, and however long the gateway runs,
    [experimental_didUpdateServiceList] is never called. *)
Lemma serviceListReports_none NODE_ENV c w :
  reachable NODE_ENV c w → serviceListReports w = [].
Proof.
  induction 1 as [_|op w _ IH].
  - unfold new_ApolloGateway. by rewrite constructor_keeps_serviceListReports.
  - by rewrite perform_keeps_serviceListReports.
Qed.

(** ** Fields that stay *)

Lemma createServices_keeps_queryPlanStore l :
  keeps (λ w, queryPlanStore (this w)) (createServices l).
Proof. intros w. by destruct (createServices_frame l w) as (-> & _ & _). Qed.

Lemma createSchema_keeps_queryPlanStore services :
  keeps (λ w, queryPlanStore (this w)) (createSchema services).
Proof.
  unfold createSchema. keeps_structure;
    solve [ done | apply createServices_keeps_queryPlanStore ].
Qed.

Lemma createServices_keeps_config l : keeps (λ w, config (this w)) (createServices l).
Proof. intros w. by destruct (createServices_frame l w) as (-> & _ & _). Qed.

Lemma createSchema_keeps_config services :
  keeps (λ w, config (this w)) (createSchema services).
Proof.
  unfold createSchema. keeps_structure; solve [ done | apply createServices_keeps_config ].
Qed.

Lemma perform_keeps_config op w : config (this (perform op w)) = config (this w).
Proof.
  destruct op; simpl.
  - revert w. change (keeps (λ w, config (this w)) (load replies)).
    unfold load, loadServiceDefinitions. keeps_structure;
      solve [ done | apply createSchema_keeps_config | apply createServices_keeps_config ].
  - apply createSchema_keeps_config.
  - apply createServices_keeps_config.
  - revert w. change (keeps (λ w, config (this w)) (loadServiceDefinitions replies c)).
    unfold loadServiceDefinitions. keeps_structure;
      solve [ done | apply createServices_keeps_config ].
  - pose proof (executor_keeps_gateway requestContext w) as Hkept.
    by apply (f_equal config) in Hkept.
  - done.
  - by rewrite runReaction_this.
Qed.

(** The configuration of a gateway is the one its constructor stored. *)
Lemma reachable_config NODE_ENV c w :
  reachable NODE_ENV c w → config (this w) = spreadConfig NODE_ENV c.
Proof.
  induction 1 as [_|op w _ IH].
  - unfold new_ApolloGateway.
    assert (keeps (λ w, config (this w)) (constructor c)) as Hkeeps.
    { unfold constructor, initializeQueryPlanStore. keeps_structure;
        solve [ done | apply createSchema_keeps_config ]. }
    by rewrite Hkeeps.
  - by rewrite perform_keeps_config.
Qed.

(** ** [isReady] only with a schema *)

Lemma createServices_maintains_ready l :
  maintains (λ w, readyHasSchema (this w)) (createServices l).
Proof.
  intros w Hinv. destruct (createServices_frame l w) as (-> & _ & _). apply Hinv.
Qed.

Lemma createSchema_maintains_ready services :
  maintains (λ w, readyHasSchema (this w)) (createSchema services).
Proof.
  intros w Hinv. destruct (compositionFailed services) eqn:Hfailed.
  - unfold compositionFailed in Hfailed.
    destruct (compositionErrors (composeAndValidate services)) as [[|e errs]|] eqn:Herrs;
      try done.
    by destruct (failed_composition_keeps_gateway services w (e :: errs)) as [-> _].
  - destruct (createSchema_composed_this services w Hfailed) as (-> & _). by eexists.
Qed.

Lemma loadServiceDefinitions_maintains_ready replies c :
  maintains (λ w, readyHasSchema (this w)) (loadServiceDefinitions replies c).
Proof.
  unfold loadServiceDefinitions. maintains_structure;
    solve [ by intros ?? | apply createServices_maintains_ready ].
Qed.

Lemma load_maintains_ready replies :
  maintains (λ w, readyHasSchema (this w)) (load replies).
Proof.
  unfold load. maintains_structure;
    solve [ by intros ?? | apply createSchema_maintains_ready
          | apply loadServiceDefinitions_maintains_ready ].
Qed.

Lemma perform_maintains_ready op w :
  readyHasSchema (this w) → readyHasSchema (this (perform op w)).
Proof.
  destruct op; simpl.
  - apply load_maintains_ready.
  - apply createSchema_maintains_ready.
  - apply createServices_maintains_ready.
  - apply loadServiceDefinitions_maintains_ready.
  - intros Hinv Hready. pose proof (executor_keeps_gateway requestContext w) as Hkept.
    rewrite (f_equal isReady Hkept : isReady (this _) = isReady (this w)) in Hready.
    rewrite (f_equal schema Hkept : schema (this _) = schema (this w)). by apply Hinv.
  - done.
  - by rewrite runReaction_this.
Qed.

Lemma new_ApolloGateway_ready NODE_ENV c :
  readyHasSchema (this (new_ApolloGateway NODE_ENV c).1).
Proof.
  unfold new_ApolloGateway.
  assert (maintains (λ w, readyHasSchema (this w)) (constructor c)) as Hkeeps.
  { unfold constructor, initializeQueryPlanStore. maintains_structure;
      solve [ by intros ?? | apply createSchema_maintains_ready ]. }
  apply Hkeeps. by intros [=].
Qed.

Lemma reachable_ready NODE_ENV c w : reachable NODE_ENV c w → readyHasSchema (this w).
Proof.
  induction 1 as [_|op w _ IH];
    [apply new_ApolloGateway_ready|by apply perform_maintains_ready].
Qed.

(** Once ready, a gateway stays ready. *)
Lemma createSchema_maintains_isReady services :
  maintains (λ w, isReady (this w) = true) (createSchema services).
Proof.
  intros w Hready. destruct (compositionFailed services) eqn:Hfailed.
  - unfold compositionFailed in Hfailed.
    destruct (compositionErrors (composeAndValidate services)) as [[|e errs]|] eqn:Herrs;
      try done.
    by destruct (failed_composition_keeps_gateway services w (e :: errs)) as [-> _].
  - destruct (createSchema_composed_this services w Hfailed) as (_ & _ & _ & _ & Hstays).
    by apply Hstays.
Qed.

Lemma createServices_maintains_isReady l :
  maintains (λ w, isReady (this w) = true) (createServices l).
Proof.
  intros w Hready. by destruct (createServices_frame l w) as (-> & _ & _).
Qed.

Lemma perform_maintains_isReady op w :
  isReady (this w) = true → isReady (this (perform op w)) = true.
Proof.
  destruct op; simpl.
  - revert w. change (maintains (λ w, isReady (this w) = true) (load replies)).
    unfold load, loadServiceDefinitions. maintains_structure;
      solve [ by intros ?? | apply createSchema_maintains_isReady
            | apply createServices_maintains_isReady ].
  - apply createSchema_maintains_isReady.
  - apply createServices_maintains_isReady.
  - revert w.
    change (maintains (λ w, isReady (this w) = true) (loadServiceDefinitions replies c)).
    unfold loadServiceDefinitions. maintains_structure;
      solve [ by intros ?? | apply createServices_maintains_isReady ].
  - intros Hready. pose proof (executor_keeps_gateway requestContext w) as Hkept.
    by rewrite (f_equal isReady Hkept : isReady (this _) = isReady (this w)).
  - done.
  - by rewrite runReaction_this.
Qed.

(** A gateway over a local service list is ready as soon as it exists. *)
Lemma new_ApolloGateway_local_ready NODE_ENV c :
  (new_ApolloGateway NODE_ENV c).2 = Return tt → isLocalConfig c = true →
  isReady (this (new_ApolloGateway NODE_ENV c).1) = true.
Proof.
  unfold new_ApolloGateway, constructor, initializeQueryPlanStore, isLocalConfig.
  destruct (Config.localServiceList c) as [localServiceList|]; [|done].
  intros Hreturned _. run.
  assert (∀ v,
    (let (w', r) := createSchema localServiceList v in
     match r with
     | Return _ =>
         ({| this := set_callbacks c
                       (set_queryPlanStore
                          (Some (InMemoryLRUCache (2 ^ 20 * 30)%N approximateObjectSize))
                          (this w'));
             calls := calls w'; reactions := reactions w' |}, Return tt)
     | Throw e => (w', Throw e)
     end).2 = Return tt →
    isReady (this (let (w', r) := createSchema localServiceList v in
                   match r with
                   | Return _ =>
                       ({| this := set_callbacks c
                                     (set_queryPlanStore
                                        (Some (InMemoryLRUCache (2 ^ 20 * 30)%N
                                                 approximateObjectSize))
                                        (this w'));
                           calls := calls w'; reactions := reactions w' |}, Return tt)
                   | Throw e => (w', Throw e)
                   end).1) = true) as Hcomposed.
  { intros v.
    pose proof (createSchema_returns_composed localServiceList v) as Hok.
    pose proof (createSchema_composed_this localServiceList v) as Hthis.
    destruct (createSchema localServiceList v) as [w' [[]|e]]; simpl in *; [|done].
    intros _. destruct (Hthis (Hok eq_refl)) as (_ & _ & Hset & _). by apply Hset. }
  destruct (Config.debug c) as [[]|]; simpl in *; by apply Hcomposed.
Qed.

Lemma reachable_local_ready NODE_ENV c w :
  reachable NODE_ENV c w → isLocalConfig c = true → isReady (this w) = true.
Proof.
  induction 1 as [Hreturned|op w _ IH]; intros Hlocal.
  - by apply new_ApolloGateway_local_ready.
  - apply perform_maintains_isReady. by apply IH.
Qed.

(** ** [load] *)

Lemma load_ready replies w :
  isReady (this w) = true →
  load replies w = (w, Return {| loadedSchema := schema (this w); loadedExecutor := executor |}).
Proof. intros Hready. unfold load. run. by rewrite Hready. Qed.

Lemma load_returns replies w r :
  (load replies w).2 = Return r →
  isReady (this (load replies w).1) = true
  ∧ r = {| loadedSchema := schema (this (load replies w).1); loadedExecutor := executor |}.
Proof.
  destruct (isReady (this w)) eqn:Hready.
  { rewrite (load_ready _ _ Hready). simpl. by intros [= <-]. }
  unfold load. run. rewrite Hready. simpl.
  destruct (experimental_getServiceList (this w)); simpl.
  - destruct (getServiceList_reply replies) as [services|e]; simpl; [|done].
    match goal with
    | |- context [createSchema services ?v] =>
        pose proof (createSchema_returns_composed services v) as Hok;
        pose proof (createSchema_composed_this services v) as Hthis;
        destruct (createSchema services v) as [w4 [[]|e]]; simpl in *; [|done]
    end.
    intros [= <-]. split; [|done].
    destruct (Hthis (Hok eq_refl)) as (_ & _ & Hset & _). by apply Hset.
  - destruct (loadServiceDefinitions replies (config (this w)) _)
      as [w2 [services|e]]; simpl; [|done].
    match goal with
    | |- context [createSchema services ?v] =>
        pose proof (createSchema_returns_composed services v) as Hok;
        pose proof (createSchema_composed_this services v) as Hthis;
        destruct (createSchema services v) as [w4 [[]|e]]; simpl in *; [|done]
    end.
    intros [= <-]. split; [|done].
    destruct (Hthis (Hok eq_refl)) as (_ & _ & Hset & _). by apply Hset.
Qed.

(** C9: once [load] has succeeded the gateway is ready, and a further call
    of [load] changes nothing (it loads no service list and composes
    nothing, so schema, serviceMap, plan cache and log stay as they are)
    and returns the schema and the executor the first call returned. *)
Theorem load_idempotent replies w r :
  (load replies w).2 = Return r →
  isReady (this (load replies w).1) = true
  ∧ ∀ replies', load replies' (load replies w).1 = ((load replies w).1, Return r).
Proof.
  intros Hreturned. destruct (load_returns _ _ _ Hreturned) as [Hready Hr].
  split; [done|]. intros replies'. rewrite (load_ready _ _ Hready). by rewrite <- Hr.
Qed.

(** C10: in every state a gateway reaches through its constructor, its
    methods and the job queue, [isReady] implies that [schema] is defined,
    and every operation keeps it so; a request admitted when the gateway is
    ready finds the schema, so what the dereference [this.schema!] of the
    executor yields is a schema, not [undefined]; and the gateway is ready
    after every [load] that
    returns, and from its construction on when it was given a local service
    list. *)
Theorem isReady_implies_schema NODE_ENV c w :
  reachable NODE_ENV c w →
  readyHasSchema (this w)
  ∧ (∀ op, readyHasSchema (this (perform op w)))
  ∧ (isReady (this w) = true →
     ∃ currentSchema,
       schema (this w) = Some currentSchema
       ∧ nonNull (schema (this w)) = Some currentSchema)
  ∧ (∀ replies r, (load replies w).2 = Return r → isReady (this (load replies w).1) = true)
  ∧ (isLocalConfig c = true → isReady (this w) = true).
Proof.
  intros Hreach. pose proof (reachable_ready _ _ _ Hreach) as Hinv. split_and!.
  - done.
  - intros op. by apply perform_maintains_ready.
  - intros Hready. destruct (Hinv Hready) as [currentSchema Hschema].
    by exists currentSchema.
  - intros replies r Hreturned. by destruct (load_returns _ _ _ Hreturned).
  - by apply (reachable_local_ready NODE_ENV).
Qed.

(** ** The plan cache across compositions *)

Lemma executor_returns rc w response :
  (executor rc w).2 = Return response →
  ∃ queryPlan ctx jobs,
    (served (this w) rc ctx queryPlan jobs).2 = Return response
    ∧ calls (executor rc w).1 = (calls w ++ (served (this w) rc ctx queryPlan jobs).1)%list.
Proof.
  intros Hreturned.
  destruct (buildOperationContext (schema (this w)) (document rc) (operationName (request rc)))
    as [ctx|e] eqn:Hctx;
    [|by unfold executor in Hreturned; run; rewrite Hctx in Hreturned].
  pose proof (executor_serves w rc ctx Hctx) as Hserves.
  destruct (cachedPlan (this w) (queryHash rc)) as [queryPlan|].
  - exists queryPlan, ctx, []. destruct Hserves as [Hcalls Hout]. by rewrite <- Hout.
  - destruct (buildQueryPlan ctx) as [queryPlan|e].
    + exists queryPlan, ctx, (awaitedJobs (this w) (queryHash rc) queryPlan).
      destruct Hserves as [Hcalls Hout]. by rewrite served_outcome, <- Hout.
    + destruct Hserves as [_ Hout]. congruence.
Qed.


(** ** The service map across compositions *)

(** C6, as the code has it: a composition that succeeds is followed by
    the registration of the services of the list, in the order of the list
    and into the service map the gateway already has.  Entries under names
    that are not in the list are the ones the map had before: the map is
    never emptied.  When [createSchema] returns, every service of the list
    has a handle in the map, the one built for a service of that name in
    the list.  When [createSchema] throws although the composition
    succeeded, the composed schema is adopted all the same, and the map has
    the handles of the services before the first one that could not be
    registered, and of no other service of the list: of none when the
    update observer threw.  The executor does not write to the map. *)
Theorem createSchema_extends_serviceMap services w :
  compositionFailed services = false →
  let w' := (createSchema services w).1 in
  let listed := map endpoint services in
  (∀ n, n ∉ map name listed → serviceMap (this w') !! n = serviceMap (this w) !! n)
  ∧ ((createSchema services w).2 = Return tt →
     ∀ n, n ∈ map name listed →
          ∃ (d : ServiceDefinition) h,
            d ∈ services ∧ name d = n ∧ dataSourceFor (config (this w)) d = Return h
            ∧ serviceMap (this w') !! n = Some h)
  ∧ (∀ e, (createSchema services w).2 = Throw e →
          schema (this w')
          = Some (wrapSchemaWithAliasResolver (composedSchema (composeAndValidate services)))
          ∧ ∃ registered rest,
              listed = (registered ++ rest)%list
              ∧ (∀ n, n ∈ map name registered →
                      ∃ d h, d ∈ registered ∧ name d = n
                             ∧ dataSourceFor (config (this w)) d = Return h
                             ∧ serviceMap (this w') !! n = Some h)
              ∧ (∀ n, n ∉ map name registered →
                      serviceMap (this w') !! n = serviceMap (this w) !! n)
              ∧ ((∃ observer,
                    experimental_didUpdateSchema (this w) = Some observer
                    ∧ observer (schema (this w))
                        (wrapSchemaWithAliasResolver
                           (composedSchema (composeAndValidate services))) = Throw e
                    ∧ registered = [])
                 ∨ (∃ d post,
                      rest = d :: post
                      ∧ Forall (registrable (config (this w))) registered
                      ∧ ¬ registrable (config (this w)) d)))
  ∧ (∀ rc, serviceMap (this (executor rc w').1) = serviceMap (this w')).
Proof.
  intros Hcomposed. cbv zeta.
  destruct (createSchema_composed_this services w Hcomposed) as (Hthis & _).
  assert (schema (this (createSchema services w).1)
          = Some (wrapSchemaWithAliasResolver (composedSchema (composeAndValidate services))))
    as Hschema by (by rewrite Hthis).
  rewrite Hschema. clear Hthis Hschema.
  rewrite (createSchema_composed _ _ Hcomposed). cbv zeta.
  set (cur := wrapSchemaWithAliasResolver _).
  set (listed := map endpoint services).
  assert (∀ cs,
    let m := (createServices listed ;;
              emit (logger_debug "Schema loaded and ready for execution") ;;
              modifyThis (set_isReady true)) in
    let w1 := {| this := set_schema (Some cur) (this w); calls := cs;
                 reactions := reactions w |} in
    (∀ n, n ∉ map name listed →
          serviceMap (this (m w1).1) !! n = serviceMap (this w) !! n)
    ∧ ((m w1).2 = Return tt →
       ∀ n, n ∈ map name listed →
            ∃ (d : ServiceDefinition) h,
              d ∈ services ∧ name d = n ∧ dataSourceFor (config (this w)) d = Return h
              ∧ serviceMap (this (m w1).1) !! n = Some h)
    ∧ (∀ e, (m w1).2 = Throw e →
            ∃ registered d post,
              listed = (registered ++ d :: post)%list
              ∧ (∀ n, n ∈ map name registered →
                      ∃ d h, d ∈ registered ∧ name d = n
                             ∧ dataSourceFor (config (this w)) d = Return h
                             ∧ serviceMap (this (m w1).1) !! n = Some h)
              ∧ (∀ n, n ∉ map name registered →
                      serviceMap (this (m w1).1) !! n = serviceMap (this w) !! n)
              ∧ Forall (registrable (config (this w))) registered
              ∧ ¬ registrable (config (this w)) d)) as Hrest.
  { intros cs m w1. subst m. run.
    destruct (createServices_lookup listed w1) as [Hother Hlisted].
    pose proof (createServices_stops listed w1) as Hstops.
    destruct (createServices listed w1) as [w2 [[]|e]] eqn:Hservices; simpl in *.
    - split_and!; [done| |done]. intros _ n Hn.
      destruct (Hlisted eq_refl n Hn) as (d & h & Hd & Hname & Hh & Hlook).
      apply list_elem_of_fmap in Hd as (sd & -> & Hsd). by exists sd, h.
    - split_and!; [done|done|]. intros e' [= <-].
      destruct (Hstops e eq_refl) as (pre & d & post & Hlist & Hpre & Hd & Hworld & Hreturned).
      exists pre, d, post. destruct (createServices_lookup pre w1) as [Hother' Hlisted'].
      rewrite Hworld. split_and!; try done. by apply Hlisted'. }
  assert (∀ rc v, serviceMap (this (executor rc v).1) = serviceMap (this v)) as Hexecutor.
  { intros rc v. pose proof (executor_keeps_gateway rc v) as Hkept.
    by apply (f_equal serviceMap) in Hkept. }
  destruct (experimental_didUpdateSchema (this w)) as [f|]; run.
  - destruct (f (schema (this w)) cur) as [[]|e] eqn:Hobserver; simpl.
    + match goal with
      | |- context [createServices listed {| this := _; calls := ?cs; reactions := _ |}] =>
          destruct (Hrest cs) as (Hother & Hlisted & Hthrown)
      end.
      split_and!; [done|done| |by intros rc; rewrite Hexecutor]. intros e Hthrows. split; [done|].
      destruct (Hthrown e Hthrows) as (registered & d & post & ? & ? & ? & ? & ?).
      exists registered, (d :: post). split_and!; try done. right. by exists d, post.
    + split_and!; [done|done| |by intros rc; rewrite Hexecutor]. intros e' [= <-]. split; [done|].
      exists [], listed. split_and!; try done.
      * intros n Hn. by apply elem_of_nil in Hn.
      * left. by exists f.
  - match goal with
    | |- context [createServices listed {| this := _; calls := ?cs; reactions := _ |}] =>
        destruct (Hrest cs) as (Hother & Hlisted & Hthrown)
    end.
    split_and!; [done|done| |by intros rc; rewrite Hexecutor]. intros e Hthrows. split; [done|].
    destruct (Hthrown e Hthrows) as (registered & d & post & ? & ? & ? & ? & ?).
    exists registered, (d :: post). split_and!; try done. right. by exists d, post.
Qed.

(** ** Exposing the query plan *)

Lemma truthy_Some o : truthy o = true ↔ ∃ value, o = Some value ∧ value ≠ "".
Proof.
  destruct o as [value|]; simpl.
  - unfold truthy_string. rewrite negb_true_iff, String.eqb_neq. split.
    + intros Hne. by exists value.
    + by intros (? & [= <-] & Hne).
  - split; [done|]. by intros (? & [=] & _).
Qed.

Lemma shouldShowQueryPlan_true c req :
  shouldShowQueryPlan c req = true
  ↔ Config.__exposeQueryPlanExperimental c = Some (Some true)
    ∧ ∃ value, queryPlanHeader req = Some value ∧ value ≠ "".
Proof.
  unfold shouldShowQueryPlan, queryPlanHeader.
  destruct (Config.__exposeQueryPlanExperimental c) as [[[]|]|];
    [|split; [done|by intros [[=] _]]..].
  destruct (http req) as [httpRequest|]; simpl;
    [|split; [done|by intros (_ & ? & [=] & _)]].
  destruct (headers httpRequest) as [requestHeaders|]; simpl;
    [|split; [done|by intros (_ & ? & [=] & _)]].
  rewrite truthy_Some. split; [done|by intros [_ ?]].
Qed.

(** What the constructor leaves under [__exposeQueryPlanExperimental]: the
    value the configuration has under the key, [undefined] included, when
    it has the key; else whether [NODE_ENV] is something else than
    ['production']. *)
Lemma reachable_flag NODE_ENV c w :
  reachable NODE_ENV c w →
  Config.__exposeQueryPlanExperimental (config (this w))
  = Some match Config.__exposeQueryPlanExperimental c with
         | Some explicit => explicit
         | None => Some (negb (bool_decide (NODE_ENV = Some "production")))
         end.
Proof.
  intros Hreach. rewrite (reachable_config _ _ _ Hreach). simpl.
  by destruct (Config.__exposeQueryPlanExperimental c).
Qed.

(** C4, as the code has it: the response carries the serialized plan, as
    its only extension, exactly when [__exposeQueryPlanExperimental] is on
    and the request came over HTTP with a non-empty value for the header
    [Apollo-Query-Plan-Experimental]; otherwise the response is the one
    [executeQueryPlan] returned.  The flag is the value the configuration
    has under the key when it has the key (so it is off when that value is
    [false] or [undefined]), and else is on exactly when [NODE_ENV] is not
    ['production']. *)
Theorem query_plan_exposure NODE_ENV c w rc response :
  reachable NODE_ENV c w →
  (executor rc w).2 = Return response →
  let enabled :=
    match Config.__exposeQueryPlanExperimental c with
    | Some (Some explicit) => explicit
    | Some None => false
    | None => negb (bool_decide (NODE_ENV = Some "production"))
    end in
  let requested := ∃ value, queryPlanHeader (request rc) = Some value ∧ value ≠ "" in
  Config.__exposeQueryPlanExperimental (config (this w))
  = Some match Config.__exposeQueryPlanExperimental c with
         | Some explicit => explicit
         | None => Some (negb (bool_decide (NODE_ENV = Some "production")))
         end
  ∧ ∃ queryPlan ctx executed,
      executeQueryPlan queryPlan (serviceMap (this w)) rc ctx = Return executed
      ∧ call_executeQueryPlan queryPlan (serviceMap (this w)) rc ctx ∈ calls (executor rc w).1
      ∧ (enabled = true ∧ requested →
         response = withQueryPlan executed queryPlan ∧ carriesQueryPlan response)
      ∧ (¬ (enabled = true ∧ requested) → response = executed).
Proof.
  intros Hreach Hreturned. cbv zeta.
  pose proof (reachable_flag _ _ _ Hreach) as Hflag.
  assert (Config.__exposeQueryPlanExperimental (config (this w)) = Some (Some true)
          ↔ match Config.__exposeQueryPlanExperimental c with
            | Some (Some explicit) => explicit
            | Some None => false
            | None => negb (bool_decide (NODE_ENV = Some "production"))
            end = true) as Henabled.
  { rewrite Hflag. destruct (Config.__exposeQueryPlanExperimental c) as [[explicit|]|].
    - split; [by intros [= ->]|by intros ->].
    - split; [by intros [=]|done].
    - split; [by intros [= ->]|by intros ->]. }
  split; [done|].
  destruct (executor_returns _ _ _ Hreturned) as (queryPlan & ctx & jobs & Hserved & Hcalls).
  exists queryPlan, ctx.
  pose proof (execution_served (this w) rc ctx queryPlan jobs) as Hcalled.
  unfold served in Hserved.
  destruct (executeQueryPlan queryPlan (serviceMap (this w)) rc ctx) as [executed|e];
    [|done].
  exists executed. split; [done|].
  pose proof (shouldShowQueryPlan_true (config (this w)) (request rc)) as Hshow.
  rewrite Henabled in Hshow.
  split; [rewrite Hcalls; apply elem_of_app; by right|].
  assert (response = if shouldShowQueryPlan (config (this w)) (request rc)
                     then withQueryPlan executed queryPlan else executed) as ->.
  { destruct (experimental_didResolveQueryPlan (this w)) as [f|]; simpl in Hserved.
    - destruct (f queryPlan (serviceMap (this w)) ctx) as [[]|e]; [|done].
      destruct (shouldShowQueryPlan (config (this w)) (request rc)); by injection Hserved.
    - destruct (shouldShowQueryPlan (config (this w)) (request rc)); by injection Hserved. }
  destruct (shouldShowQueryPlan (config (this w)) (request rc)).
  - destruct Hshow as [Hshow _]. specialize (Hshow eq_refl).
    split.
    + intros _. split; [done|]. eexists. split; [done|]. by rewrite lookup_singleton_eq.
    + intros Hnot. by destruct Hnot.
  - destruct Hshow as [_ Hshow]. split; [|done]. intros Hboth.
    assert (false = true) as [=]. by apply Hshow.
Qed.

(** ** The alias resolver *)

Lemma wrapType_visited type :
  isObjectType type = true → isIntrospectionType type = false →
  wrapType type = {| kind := kind type; typeName := typeName type;
                     getFields := setResolve <$> getFields type |}.
Proof. intros Hobject Hintro. unfold wrapType. by rewrite Hobject, Hintro. Qed.

Lemma wrapType_skipped type :
  isObjectType type = false ∨ isIntrospectionType type = true → wrapType type = type.
Proof. unfold wrapType. by intros [-> | ->]; rewrite ?andb_false_r. Qed.

Lemma wrapType_isObjectType type : isObjectType (wrapType type) = isObjectType type.
Proof. unfold wrapType. by destruct (isObjectType type && negb (isIntrospectionType type)). Qed.

Lemma wrapType_isIntrospectionType type :
  isIntrospectionType (wrapType type) = isIntrospectionType type.
Proof. unfold wrapType. by destruct (isObjectType type && negb (isIntrospectionType type)). Qed.

(** What wrapping does to one type: kind, name and the keys of the fields
    stay, every field keeps its type, and the resolver of every field is
    the alias resolver when the type is visited, and else the one it was. *)
Lemma wrapType_fields type fieldKey :
  kind (wrapType type) = kind type
  ∧ typeName (wrapType type) = typeName type
  ∧ match getFields type !! fieldKey with
    | Some field =>
        ∃ wrapped,
          getFields (wrapType type) !! fieldKey = Some wrapped
          ∧ fieldType wrapped = fieldType field
          ∧ resolve wrapped
            = if isObjectType type && negb (isIntrospectionType type)
              then Some defaultFieldResolverWithAliasSupport
              else resolve field
    | None => getFields (wrapType type) !! fieldKey = None
    end.
Proof.
  unfold wrapType.
  destruct (isObjectType type && negb (isIntrospectionType type)); simpl.
  - split_and!; [done..|]. rewrite lookup_fmap.
    destruct (getFields type !! fieldKey) as [field|]; [|done]. by eexists.
  - split_and!; [done..|]. destruct (getFields type !! fieldKey) as [field|]; [|done].
    by eexists.
Qed.

(** C8: once composition has succeeded, the schema the gateway adopts is
    the composed one with other resolvers: it has the types of the composed
    schema under the same keys, of the same kind and name, each with the
    fields it had, under the same keys and of the same types.  Every field
    of every object type that is not an introspection type resolves with
    [defaultFieldResolverWithAliasSupport], which reads the value the
    backend returned under the response key of the field (its alias), not
    under its name; the fields of introspection types, and of all types
    that are not object types, have the resolvers composition gave them,
    and those types are as composition left them. *)
Theorem createSchema_installs_alias_resolver services w :
  compositionFailed services = false →
  let composed := composedSchema (composeAndValidate services) in
  ∃ adopted,
    schema (this (createSchema services w).1) = Some adopted
    ∧ (∀ typeKey type fieldKey field,
         getTypeMap adopted !! typeKey = Some type →
         isObjectType type = true → isIntrospectionType type = false →
         getFields type !! fieldKey = Some field →
         ∃ resolver,
           resolve field = Some resolver
           ∧ resolver = defaultFieldResolverWithAliasSupport
           ∧ ∀ source info, resolver source info = source !! pathKey info)
    ∧ (∀ typeKey type,
         getTypeMap composed !! typeKey = Some type →
         isObjectType type = false ∨ isIntrospectionType type = true →
         getTypeMap adopted !! typeKey = Some type)
    ∧ (∀ typeKey, is_Some (getTypeMap adopted !! typeKey)
                  ↔ is_Some (getTypeMap composed !! typeKey))
    ∧ (∀ typeKey type,
         getTypeMap composed !! typeKey = Some type →
         ∃ wrapped,
           getTypeMap adopted !! typeKey = Some wrapped
           ∧ kind wrapped = kind type
           ∧ typeName wrapped = typeName type
           ∧ ∀ fieldKey,
               match getFields type !! fieldKey with
               | Some field =>
                   ∃ wrappedField,
                     getFields wrapped !! fieldKey = Some wrappedField
                     ∧ fieldType wrappedField = fieldType field
                     ∧ resolve wrappedField
                       = if isObjectType type && negb (isIntrospectionType type)
                         then Some defaultFieldResolverWithAliasSupport
                         else resolve field
               | None => getFields wrapped !! fieldKey = None
               end)
    ∧ extensions adopted = extensions composed.
Proof.
  intros Hok. cbv zeta.
  destruct (createSchema_composed_this services w Hok) as (Hthis & _).
  exists (wrapSchemaWithAliasResolver (composedSchema (composeAndValidate services))).
  split; [by rewrite Hthis|].
  set (composed := composedSchema (composeAndValidate services)).
  unfold wrapSchemaWithAliasResolver. simpl. split_and!.
  - intros typeKey type fieldKey field Htype Hobject Hintro Hfield.
    rewrite lookup_fmap in Htype.
    destruct (getTypeMap composed !! typeKey) as [type0|]; [|done].
    injection Htype as <-.
    rewrite wrapType_isObjectType in Hobject.
    rewrite wrapType_isIntrospectionType in Hintro.
    rewrite (wrapType_visited _ Hobject Hintro) in Hfield. simpl in Hfield.
    rewrite lookup_fmap in Hfield.
    destruct (getFields type0 !! fieldKey) as [field0|]; [|done].
    injection Hfield as <-. by eexists.
  - intros typeKey type Htype Hskipped. rewrite lookup_fmap, Htype. simpl.
    by rewrite (wrapType_skipped _ Hskipped).
  - intros typeKey. rewrite lookup_fmap. apply fmap_is_Some.
  - intros typeKey type Htype. exists (wrapType type). rewrite lookup_fmap, Htype.
    split; [done|]. split; [apply (wrapType_fields type "")|].
    split; [apply (wrapType_fields type "")|]. intros fieldKey.
    apply (wrapType_fields type fieldKey).
  - done.
Qed.

(** ** Further properties of [createServices] *)

(** X1: [createServices] returns exactly when every service of the list
    has a non-empty url, or the configuration is a local one, and the
    handle of every service can be built. *)
Theorem createServices_returns_iff l w :
  (createServices l w).2 = Return tt ↔ Forall (registrable (config (this w))) l.
Proof.
  revert w. induction l as [|d l IH]; intros w.
  { split; [by constructor|done]. }
  rewrite createServices_cons, Forall_cons. unfold registrable at 1.
  destruct (truthy (url d)); simpl.
  - destruct (dataSourceFor (config (this w)) d) as [h|e].
    + rewrite IH. simpl. split; [|by intros [_ ?]]. intros ?. split; [|done]. eauto.
    + simpl. split; [done|]. by intros [[_ [h [=]]] _].
  - destruct (isLocalConfig (config (this w))); simpl.
    + destruct (dataSourceFor (config (this w)) d) as [h|e].
      * rewrite IH. simpl. split; [|by intros [_ ?]]. intros ?. split; [|done]. eauto.
      * simpl. split; [done|]. by intros [[_ [h [=]]] _].
    + split; [done|]. by intros [[[[=]|[=]] _] _].
Qed.

(** X2: in a configuration that is not local, [createServices] stops at the
    first service without url and throws the error that names it.  The
    services before it are registered by then and stay so; no other entry
    of the service map is written, and nothing is logged. *)
Theorem createServices_missing_url pre d post w :
  isLocalConfig (config (this w)) = false →
  Forall (registrable (config (this w))) pre →
  truthy (url d) = false →
  let w' := (createServices (pre ++ d :: post) w).1 in
  (createServices (pre ++ d :: post) w).2 = Throw (missingUrl d)
  ∧ (∀ s, s ∈ pre → is_Some (serviceMap (this w') !! name s))
  ∧ (∀ n, n ∉ map name pre → serviceMap (this w') !! n = serviceMap (this w) !! n)
  ∧ calls w' = calls w.
Proof.
  intros Hlocal Hpre Hurl. cbv zeta. revert w Hlocal Hpre.
  induction pre as [|s pre IH]; intros w Hlocal Hpre.
  { simpl app. rewrite createServices_cons, Hurl, Hlocal. simpl.
    split_and!; try done. intros s Hs. by apply elem_of_nil in Hs. }
  apply Forall_cons in Hpre as [[[Hs|Hs] [h Hh]] Hpre]; [|congruence].
  simpl app. rewrite createServices_cons, Hs, Hh. simpl.
  set (w2 := {| this := set_serviceMap (<[name s:=h]> (serviceMap (this w))) (this w);
                calls := calls w; reactions := reactions w |}).
  destruct (IH w2 Hlocal Hpre) as (Hthrown & Hregistered & Hother & Hcalls).
  split_and!; try done.
  - intros s' Hs'. apply elem_of_cons in Hs' as [->|Hs']; [|by apply Hregistered].
    destruct (decide (name s ∈ map name pre)) as [Hin|Hnotin].
    + apply list_elem_of_fmap in Hin as (s' & Hname & Hs'). rewrite Hname.
      by apply Hregistered.
    + rewrite (Hother _ Hnotin). simpl. unfold ServiceMap. rewrite lookup_insert_eq. by eexists.
  - intros n Hn. simpl in Hn. apply not_elem_of_cons in Hn as [Hne Hn].
    rewrite (Hother _ Hn). simpl. unfold ServiceMap. by rewrite lookup_insert_ne.
Qed.

(** X3: when two services of the list have the same name, the later one
    is the one registered: after [createServices] has returned, a name is
    bound to the handle of the last service of the list with that name. *)
Theorem createServices_last_definition_wins pre d post w h :
  (createServices (pre ++ d :: post) w).2 = Return tt →
  name d ∉ map name post →
  dataSourceFor (config (this w)) d = Return h →
  serviceMap (this (createServices (pre ++ d :: post) w).1) !! name d = Some h.
Proof.
  intros Hreturned Hlast Hh. revert w Hreturned Hh.
  induction pre as [|s pre IH]; intros w Hreturned Hh; simpl app in *;
    rewrite createServices_cons in *.
  - destruct (negb (truthy (url d)) && negb (isLocalConfig (config (this w)))); [done|].
    rewrite Hh in *.
    match goal with
    | |- context [createServices post ?v] =>
        destruct (createServices_lookup post v) as [Hother _]
    end.
    rewrite (Hother _ Hlast). simpl. unfold ServiceMap. by rewrite lookup_insert_eq.
  - destruct (negb (truthy (url s)) && negb (isLocalConfig (config (this w)))); [done|].
    destruct (dataSourceFor (config (this w)) s) as [hs|e]; [|done].
    by apply IH.
Qed.

(** ** Further properties of [createSchema] *)

(** X4: when composition has succeeded and [createSchema] throws all the
    same (the update observer threw, or a service could not be
    registered), the composed schema is adopted nevertheless, while
    [isReady] keeps the value it had. *)
Theorem createSchema_partial_adoption services w e :
  compositionFailed services = false →
  (createSchema services w).2 = Throw e →
  let w' := (createSchema services w).1 in
  schema (this w')
  = Some (wrapSchemaWithAliasResolver (composedSchema (composeAndValidate services)))
  ∧ isReady (this w') = isReady (this w)
  ∧ queryPlanStore (this w') = queryPlanStore (this w).
Proof.
  intros Hcomposed Hthrown. cbv zeta.
  destruct (createSchema_composed_this services w Hcomposed)
    as (Hthis & _ & _ & Hset & Hstays).
  split_and!.
  - by rewrite Hthis.
  - destruct (isReady (this w)) eqn:Hbefore; [by apply Hstays|].
    destruct (isReady (this (createSchema services w).1)) eqn:Hafter; [|done].
    destruct (Hset eq_refl) as [[=]|Hreturned]. congruence.
  - apply createSchema_keeps_queryPlanStore.
Qed.

(** X5: when composition succeeds and an update observer is set,
    [createSchema] calls it once, with the schema the gateway had before
    (none at first) and with the adopted schema, right after its first log
    message and before any service is registered; if the observer throws,
    [createSchema] throws its error and the service map is as it was. *)
Theorem createSchema_reports_update services w observer :
  compositionFailed services = false →
  experimental_didUpdateSchema (this w) = Some observer →
  let w' := (createSchema services w).1 in
  let currentSchema :=
    wrapSchemaWithAliasResolver (composedSchema (composeAndValidate services)) in
  calls w' = (calls w
              ++ [logger_debug (composingMessage services);
                  call_didUpdateSchema (schema (this w)) currentSchema]
              ++ match (createSchema services w).2 with
                 | Return _ => [logger_debug "Schema loaded and ready for execution"]
                 | Throw _ => []
                 end)%list
  ∧ (∀ e, observer (schema (this w)) currentSchema = Throw e →
          (createSchema services w).2 = Throw e
          ∧ serviceMap (this w') = serviceMap (this w)).
Proof.
  intros Hcomposed Hobserver. cbv zeta.
  rewrite (createSchema_composed _ _ Hcomposed). cbv zeta. rewrite Hobserver. run.
  set (currentSchema := wrapSchemaWithAliasResolver _).
  destruct (observer (schema (this w)) currentSchema) as [[]|e]; simpl.
  - match goal with
    | |- context [createServices ?l ?v] =>
        destruct (createServices_frame l v) as (_ & Hcalls & _);
        destruct (createServices l v) as [w2 [[]|e]]; simpl in *
    end.
    + rewrite Hcalls, <- !app_assoc. simpl. split; [done|]. by intros e [=].
    + rewrite Hcalls, <- !app_assoc. simpl. split; [done|]. by intros e' [=].
  - rewrite <- !app_assoc. simpl. split; [done|]. by intros e' [= <-].
Qed.

(** X20: [createSchema] returns exactly when composition reports no error,
    the update observer, if one is set, returns, and every service of the
    list can be registered (it has a non-empty url, unless the
    configuration is local, and its handle can be built). *)
Theorem createSchema_returns_iff services w :
  (createSchema services w).2 = Return tt
  ↔ compositionFailed services = false
    ∧ match experimental_didUpdateSchema (this w) with
      | Some observer =>
          observer (schema (this w))
            (wrapSchemaWithAliasResolver (composedSchema (composeAndValidate services)))
          = Return tt
      | None => True
      end
    ∧ Forall (registrable (config (this w))) (map endpoint services).
Proof.
  destruct (compositionFailed services) eqn:Hcomposed.
  { split; [|by intros [[=] _]]. intros Hreturned.
    apply createSchema_returns_composed in Hreturned. congruence. }
  rewrite (createSchema_composed _ _ Hcomposed). cbv zeta.
  set (currentSchema := wrapSchemaWithAliasResolver _).
  assert (∀ cs,
    ((createServices (map endpoint services) ;;
      emit (logger_debug "Schema loaded and ready for execution") ;;
      modifyThis (set_isReady true))
       {| this := set_schema (Some currentSchema) (this w); calls := cs;
          reactions := reactions w |}).2 = Return tt
    ↔ Forall (registrable (config (this w))) (map endpoint services)) as Hservices.
  { intros cs. run.
    match goal with
    | |- context [createServices ?l ?v] =>
        pose proof (createServices_returns_registrable l v) as Hthen;
        pose proof (registrable_createServices_returns l v) as Hif;
        destruct (createServices l v) as [w2 [[]|e]]; simpl in *
    end.
    - split; [by intros _; apply Hthen|done].
    - split; [done|]. intros Hall. by apply Hif in Hall. }
  destruct (experimental_didUpdateSchema (this w)) as [observer|]; run.
  - destruct (observer (schema (this w)) currentSchema) as [[]|e]; simpl.
    + rewrite Hservices. split; [by intros ?|by intros (_ & _ & ?)].
    + split; [done|]. by intros (_ & [=] & _).
  - rewrite Hservices. split; [by intros ?|by intros (_ & _ & ?)].
Qed.

(** ** Further properties of [load] *)

(** X6: when the gateway is not ready and its service list cannot be
    obtained (the loader of the user rejects, the remote endpoints cannot
    be reached, or the configuration has no service list at all), [load]
    throws that error and leaves the gateway as it was, not ready; only its
    log has grown. *)
Theorem load_without_service_list replies w e :
  isReady (this w) = false →
  match experimental_getServiceList (this w) with
  | Some _ => getServiceList_reply replies = Throw e
  | None =>
      Config.localServiceList (config (this w)) = None
      ∧ match Config.serviceList (config (this w)) with
        | Some _ => getServiceDefinitionsFromRemoteEndpoint_reply replies = Throw e
        | None => e = Error "The gateway requires a service list to be provided in the config"
        end
  end →
  (load replies w).2 = Throw e
  ∧ this (load replies w).1 = this w
  ∧ reactions (load replies w).1 = reactions w.
Proof.
  intros Hready Hfails. unfold load, loadServiceDefinitions. run. rewrite Hready. simpl.
  destruct (experimental_getServiceList (this w)); simpl.
  - by rewrite Hfails.
  - destruct Hfails as [-> Hfails].
    destruct (Config.serviceList (config (this w))); simpl.
    + by rewrite Hfails.
    + by rewrite Hfails.
Qed.

(** X7: a gateway that fetches its service definitions registers the
    fetched services before it composes them.  When composition then
    fails, [load] throws and the gateway has neither a new schema nor
    become ready, but every fetched service is in its service map. *)
Theorem load_registers_before_composing replies w serviceList services errs :
  isReady (this w) = false →
  experimental_getServiceList (this w) = None →
  Config.localServiceList (config (this w)) = None →
  Config.serviceList (config (this w)) = Some serviceList →
  getServiceDefinitionsFromRemoteEndpoint_reply replies = Return services →
  Forall (registrable (config (this w))) (map endpoint services) →
  compositionErrors (composeAndValidate services) = Some errs → errs ≠ [] →
  let w' := (load replies w).1 in
  (∃ e, (load replies w).2 = Throw e)
  ∧ schema (this w') = schema (this w)
  ∧ isReady (this w') = false
  ∧ (∀ s : ServiceDefinition, s ∈ services → is_Some (serviceMap (this w') !! name s)).
Proof.
  intros Hready Hloader Hlocal Hlist Hreply Hregistrable Herrs Hne. cbv zeta.
  unfold load, loadServiceDefinitions. run.
  rewrite Hready, Hloader, Hlocal, Hlist. simpl. rewrite Hreply. simpl.
  match goal with
  | |- context [createServices ?l ?v] =>
      pose proof (registrable_createServices_returns l v Hregistrable) as Hreturned;
      destruct (createServices_lookup l v) as [_ Hlisted];
      destruct (createServices_frame l v) as (Hframe & _ & _);
      destruct (createServices l v) as [w2 [[]|e]]; simpl in *; [|done]
  end.
  match goal with
  | |- context [createSchema services ?v] =>
      destruct (failed_composition_keeps_gateway services v errs Herrs Hne) as [Hthis _];
      pose proof (createSchema_failed services v errs Herrs Hne) as Hfailed;
      destruct (createSchema services v) as [w3 [[]|e]]; simpl in *
  end.
  { cbv zeta in Hfailed. destruct (experimental_didFailComposition (this w2)) as [f|];
      [|done]. injection Hfailed as _ Hfailed. by destruct (f errs services). }
  rewrite Hthis. split_and!.
  - by eexists.
  - by rewrite Hframe.
  - by rewrite Hframe.
  - intros s Hs.
    destruct (Hlisted eq_refl (name s)) as (d & h & _ & _ & _ & Hlookup).
    + apply list_elem_of_fmap. exists (endpoint s). split; [done|].
      by apply list_elem_of_fmap_2.
    + by eexists.
Qed.

(** X8: a gateway with a service list loader of its own never calls
    [getServiceDefinitionsFromRemoteEndpoint] and registers nothing before
    it composes: when the composition of the loaded services fails, [load]
    throws and leaves the whole gateway as it was, service map included. *)
Theorem load_custom_loader_composition_failure replies w loader services errs :
  isReady (this w) = false →
  experimental_getServiceList (this w) = Some loader →
  getServiceList_reply replies = Return services →
  compositionErrors (composeAndValidate services) = Some errs → errs ≠ [] →
  let w' := (load replies w).1 in
  (∃ e, (load replies w).2 = Throw e)
  ∧ this w' = this w
  ∧ ∃ added, calls w' = (calls w ++ added)%list
             ∧ call_getServiceList ∈ added
             ∧ ∀ serviceList introspectionHeaders,
                 call_getServiceDefinitionsFromRemoteEndpoint serviceList introspectionHeaders
                   ∉ added.
Proof.
  intros Hready Hloader Hreply Herrs Hne. cbv zeta.
  unfold load. run. rewrite Hready, Hloader. simpl. rewrite Hreply. simpl.
  match goal with
  | |- context [createSchema services ?v] =>
      pose proof (createSchema_failed services v errs Herrs Hne) as Hfailed;
      destruct (createSchema services v) as [w3 [[]|e]]; simpl in *;
      cbv zeta in Hfailed
  end.
  { destruct (experimental_didFailComposition (this w)) as [f|]; [|done].
    injection Hfailed as _ Hfailed. by destruct (f errs services). }
  destruct (experimental_didFailComposition (this w)) as [f|];
    injection Hfailed as -> _; simpl; (split_and!; [by eexists|done|]);
    rewrite <- !app_assoc; simpl; eexists; (split; [done|]);
    (split; [apply list_elem_of_further, list_elem_of_here|]);
    intros serviceList introspectionHeaders Habsurd;
    repeat (apply elem_of_cons in Habsurd as [[=]|Habsurd]);
    by apply elem_of_nil in Habsurd.
Qed.

(** ** Further properties of the constructor *)

(** X9: the constructor composes a local service list before it has
    assigned the observers of the configuration to the gateway.  So no
    observer is called while a gateway is constructed, whatever the
    configuration sets, and when the composition of the local service list
    fails the constructor throws [GraphQLSchemaValidationError] of the
    errors without the composition-failure observer having seen them. *)
Theorem constructor_calls_no_observer NODE_ENV c :
  List.filter isObserverCall (calls (new_ApolloGateway NODE_ENV c).1) = []
  ∧ ∀ localServiceList errs,
      Config.localServiceList c = Some localServiceList →
      compositionErrors (composeAndValidate localServiceList) = Some errs → errs ≠ [] →
      (new_ApolloGateway NODE_ENV c).2 = Throw (GraphQLSchemaValidationError errs).
Proof.
  unfold new_ApolloGateway, constructor, initializeQueryPlanStore.
  run. destruct (Config.debug c) as [[]|]; simpl;
    (destruct (Config.localServiceList c) as [l|]; simpl; [|by split]);
    match goal with
    | |- context [createSchema l {| this := _; calls := ?cs; reactions := _ |}] =>
        destruct (createSchema_before_callbacks NODE_ENV c cs l eq_refl)
          as [Hcalls Hthrown];
        destruct (createSchema l _) as [w1 [[]|e]]; simpl in *
    end;
    (split; [done|]); intros l' errs [= <-] Herrs Hne;
    by specialize (Hthrown errs Herrs Hne).
Qed.

(** X21: constructing a gateway never fails for a configuration without
    a local service list.  With one, it succeeds exactly when the list
    composes without error and the handle of every service can be built:
    a service without url is accepted, and no observer has a say. *)
Theorem constructor_returns_iff NODE_ENV c :
  (new_ApolloGateway NODE_ENV c).2 = Return tt
  ↔ match Config.localServiceList c with
    | None => True
    | Some localServiceList =>
        compositionFailed localServiceList = false
        ∧ Forall (λ d, ∃ h, dataSourceFor c d = Return h) (map endpoint localServiceList)
    end.
Proof.
  unfold new_ApolloGateway, constructor, initializeQueryPlanStore. run.
  destruct (Config.localServiceList c) as [l|] eqn:Hl;
    [|by destruct (Config.debug c) as [[]|]].
  assert (Forall (registrable (spreadConfig NODE_ENV c)) (map endpoint l)
          ↔ Forall (λ d, ∃ h, dataSourceFor c d = Return h) (map endpoint l)) as Hlocal.
  { apply Forall_proper; [|done]. intros d. unfold registrable, isLocalConfig. simpl.
    rewrite Hl. split; [by intros [_ ?]|]. intros ?. split; [by right|done]. }
  assert (∀ cs,
    (createSchema l {| this := freshGateway NODE_ENV c; calls := cs; reactions := [] |}).2
      = Return tt
    ↔ compositionFailed l = false
      ∧ Forall (λ d, ∃ h, dataSourceFor c d = Return h) (map endpoint l)) as Hcomposes.
  { intros cs. rewrite <- Hlocal. destruct (compositionFailed l) eqn:Hcomposed.
    { split; [|by intros [[=] _]]. intros Hreturned.
      apply createSchema_returns_composed in Hreturned. congruence. }
    rewrite (createSchema_composed _ _ Hcomposed). run.
    match goal with
    | |- context [createServices ?l' ?v] =>
        pose proof (createServices_returns_registrable l' v) as Hthen;
        pose proof (registrable_createServices_returns l' v) as Hif;
        destruct (createServices l' v) as [w2 [[]|e]]; simpl in *
    end.
    - split; [|done]. intros _. split; [done|]. by apply Hthen.
    - split; [done|]. intros [_ Hall]. by apply Hif in Hall. }
  destruct (Config.debug c) as [[]|]; simpl;
    match goal with
    | |- context [createSchema l {| this := _; calls := ?cs; reactions := _ |}] =>
        rewrite <- (Hcomposes cs)
    end;
    by destruct (createSchema l _) as [w1 [[]|e]].
Qed.

(** ** Further properties of the executor *)

(** X10: the operation context is built before anything else is done for
    a request, from the schema of the gateway as it is, defined or not.
    When [buildOperationContext] throws, the executor throws its error at
    once: the plan cache is not consulted, nothing is executed or logged,
    and no observer is called. *)
Theorem executor_fails_before_cache rc w e :
  buildOperationContext (schema (this w)) (document rc) (operationName (request rc))
    = Throw e →
  executor rc w = (w, Throw e).
Proof.
  intros Hctx. unfold executor. run. by rewrite Hctx.
Qed.

(** X11: a request whose queryHash has a plan in the cache does not depend
    on the planner: it is served that plan whatever [buildQueryPlan] would
    do with it, and no write to the cache is started. *)
Theorem executor_hit_needs_no_planner w rc ctx queryPlan :
  buildOperationContext (schema (this w)) (document rc) (operationName (request rc))
    = Return ctx →
  cachedPlan (this w) (queryHash rc) = Some queryPlan →
  (executor rc w).2 = (served (this w) rc ctx queryPlan []).2
  ∧ calls (executor rc w).1 = (calls w ++ (served (this w) rc ctx queryPlan []).1)%list
  ∧ reactions (executor rc w).1 = reactions w.
Proof.
  intros Hctx Hcached. unfold cachedPlan in Hcached.
  destruct (queryPlanStore (this w)) as [store|] eqn:Hstore; [|done].
  destruct (cache_get store (queryHash rc)) as [store' found] eqn:Hget.
  simpl in Hcached. subst found.
  by rewrite (executor_hit w rc ctx Hctx _ _ _ Hstore Hget).
Qed.

(** X12: the plan is written to the cache before it is executed.  When
    the execution of a freshly built plan throws, the request fails with
    that error and [experimental_didResolveQueryPlan] is not called, but
    the plan has been handed to the cache all the same.  If the write is
    rejected by the time the executor resumes from awaiting the execution,
    its warning is logged before the request fails; if it is not settled by
    then, its reaction is left waiting. *)
Theorem executor_execution_failure w rc ctx store store' queryPlan e :
  buildOperationContext (schema (this w)) (document rc) (operationName (request rc))
    = Return ctx →
  queryPlanStore (this w) = Some store →
  cache_get store (queryHash rc) = (store', None) →
  buildQueryPlan ctx = Return queryPlan →
  executeQueryPlan queryPlan (serviceMap (this w)) rc ctx = Throw e →
  let w' := (executor rc w).1 in
  let write := cache_set store' (queryHash rc) queryPlan in
  (executor rc w).2 = Throw e
  ∧ calls w' = (calls w ++ call_executeQueryPlan queryPlan (serviceMap (this w)) rc ctx
                           :: warnedAtAwait write.2)%list
  ∧ queryPlanStore (this w') = Some write.1
  ∧ reactions w' = (reactions w ++ leftWaiting write.2)%list.
Proof.
  intros Hctx Hstore Hget Hplan Hexecution. cbv zeta.
  rewrite (executor_miss w rc ctx Hctx _ _ Hstore Hget), Hplan.
  unfold served. by rewrite Hexecution.
Qed.

(** X13: [experimental_didResolveQueryPlan] is called after the plan has
    been executed, with the plan, the service map and the operation
    context.  Its exceptions are not caught: when it throws, the request
    fails with its error although the execution had returned a response,
    and the query plan is not logged.  Between the execution and the call
    of the observer nothing is logged but the warning of a write of the
    plan that was rejected in the meantime. *)
Theorem executor_observer_failure w rc ctx queryPlan response observer e :
  buildOperationContext (schema (this w)) (document rc) (operationName (request rc))
    = Return ctx →
  cachedPlan (this w) (queryHash rc) = Some queryPlan
  ∨ cachedPlan (this w) (queryHash rc) = None ∧ buildQueryPlan ctx = Return queryPlan →
  executeQueryPlan queryPlan (serviceMap (this w)) rc ctx = Return response →
  experimental_didResolveQueryPlan (this w) = Some observer →
  observer queryPlan (serviceMap (this w)) ctx = Throw e →
  let jobs :=
    match cachedPlan (this w) (queryHash rc) with
    | Some _ => []
    | None => awaitedJobs (this w) (queryHash rc) queryPlan
    end in
  (executor rc w).2 = Throw e
  ∧ calls (executor rc w).1
    = (calls w ++ call_executeQueryPlan queryPlan (serviceMap (this w)) rc ctx
               :: jobs ++ [call_didResolveQueryPlan queryPlan (serviceMap (this w)) ctx])%list.
Proof.
  intros Hctx Hplan Hexecution Hobserver Hthrows. cbv zeta.
  pose proof (executor_serves w rc ctx Hctx) as Hserves.
  assert (∀ jobs, served (this w) rc ctx queryPlan jobs
                  = ((call_executeQueryPlan queryPlan (serviceMap (this w)) rc ctx
                        :: jobs
                        ++ [call_didResolveQueryPlan queryPlan (serviceMap (this w)) ctx])%list,
                     Throw e)) as Hserved.
  { intros jobs. unfold served. rewrite Hexecution, Hobserver. simpl. by rewrite Hthrows. }
  destruct Hplan as [Hhit|[Hmiss Hbuilt]].
  - rewrite Hhit in *. destruct Hserves as [-> ->]. by rewrite Hserved.
  - rewrite Hmiss, Hbuilt in *. cbv zeta in Hserves. destruct Hserves as [-> ->].
    by rewrite !Hserved.
Qed.


(** ** Further properties of [wrapSchemaWithAliasResolver] *)

Lemma wrapType_idempotent type : wrapType (wrapType type) = wrapType type.
Proof.
  unfold wrapType at 2.
  destruct (isObjectType type && negb (isIntrospectionType type)) eqn:Hvisited.
  - apply andb_true_iff in Hvisited as [Hobject Hintro].
    apply negb_true_iff in Hintro.
    rewrite wrapType_visited by exact Hobject || exact Hintro. simpl.
    rewrite (wrapType_visited type Hobject Hintro).
    f_equal. rewrite <- map_fmap_compose. by apply map_fmap_ext.
  - unfold wrapType. by rewrite Hvisited.
Qed.

(** X15: wrapping is idempotent: a schema that has been wrapped is left as
    it is by a second wrapping. *)
Theorem wrapSchemaWithAliasResolver_idempotent schema :
  wrapSchemaWithAliasResolver (wrapSchemaWithAliasResolver schema)
  = wrapSchemaWithAliasResolver schema.
Proof.
  unfold wrapSchemaWithAliasResolver. simpl. f_equal.
  rewrite <- map_fmap_compose. apply map_fmap_ext. intros typeKey type _.
  apply wrapType_idempotent.
Qed.

(** X16: wrapping changes resolvers and nothing else: every type keeps its
    key in the type map, its kind and its name, and has the same fields,
    under the same keys and of the same types. *)
Theorem wrapSchemaWithAliasResolver_keeps_shape schema typeKey :
  match getTypeMap schema !! typeKey with
  | None => getTypeMap (wrapSchemaWithAliasResolver schema) !! typeKey = None
  | Some type =>
      ∃ wrapped,
        getTypeMap (wrapSchemaWithAliasResolver schema) !! typeKey = Some wrapped
        ∧ kind wrapped = kind type
        ∧ typeName wrapped = typeName type
        ∧ ∀ fieldKey, fieldType <$> getFields wrapped !! fieldKey
                      = fieldType <$> getFields type !! fieldKey
  end.
Proof.
  unfold wrapSchemaWithAliasResolver. simpl. rewrite lookup_fmap.
  destruct (getTypeMap schema !! typeKey) as [type|]; [|done]. simpl.
  exists (wrapType type). split; [done|]. unfold wrapType.
  destruct (isObjectType type && negb (isIntrospectionType type)); [|done]. simpl.
  split_and!; [done..|]. intros fieldKey. rewrite lookup_fmap.
  by destruct (getFields type !! fieldKey).
Qed.

(** ** What no operation undoes *)

Lemma createServices_maintains_registered n l :
  maintains (λ w, is_Some (serviceMap (this w) !! n)) (createServices l).
Proof.
  induction l as [|d l IH]; intros w Hn; [done|].
  rewrite createServices_cons.
  destruct (negb (truthy (url d)) && negb (isLocalConfig (config (this w)))); [done|].
  destruct (dataSourceFor (config (this w)) d) as [h|e]; [|done].
  apply IH. simpl. unfold ServiceMap. rewrite lookup_insert. by case_decide.
Qed.

Lemma createSchema_maintains_registered n services :
  maintains (λ w, is_Some (serviceMap (this w) !! n)) (createSchema services).
Proof.
  unfold createSchema. maintains_structure;
    solve [ by intros ?? | apply createServices_maintains_registered ].
Qed.

Lemma createSchema_maintains_schema services :
  maintains (λ w, is_Some (schema (this w))) (createSchema services).
Proof.
  intros w Hschema. destruct (compositionFailed services) eqn:Hfailed.
  - unfold compositionFailed in Hfailed.
    destruct (compositionErrors (composeAndValidate services)) as [[|e errs]|] eqn:Herrs;
      try done.
    by destruct (failed_composition_keeps_gateway services w (e :: errs)) as [-> _].
  - destruct (createSchema_composed_this services w Hfailed) as (-> & _). by eexists.
Qed.

Lemma createServices_maintains_schema l :
  maintains (λ w, is_Some (schema (this w))) (createServices l).
Proof. intros w Hschema. by destruct (createServices_frame l w) as (-> & _ & _). Qed.

(** X17: no operation makes a gateway that is ready not ready again, and
    none takes away the schema of a gateway that has one. *)
Theorem gateway_never_regresses op w :
  (isReady (this w) = true → isReady (this (perform op w)) = true)
  ∧ (is_Some (schema (this w)) → is_Some (schema (this (perform op w)))).
Proof.
  split; [apply perform_maintains_isReady|].
  destruct op; simpl.
  - revert w. change (maintains (λ w, is_Some (schema (this w))) (load replies)).
    unfold load, loadServiceDefinitions. maintains_structure;
      solve [ by intros ?? | apply createSchema_maintains_schema
            | apply createServices_maintains_schema ].
  - apply createSchema_maintains_schema.
  - apply createServices_maintains_schema.
  - revert w.
    change (maintains (λ w, is_Some (schema (this w))) (loadServiceDefinitions replies c)).
    unfold loadServiceDefinitions. maintains_structure;
      solve [ by intros ?? | apply createServices_maintains_schema ].
  - intros Hschema. pose proof (executor_keeps_gateway requestContext w) as Hkept.
    by rewrite (f_equal schema Hkept : schema (this _) = schema (this w)).
  - done.
  - by rewrite runReaction_this.
Qed.

(** X18: no operation removes an entry of the service map: a service that
    is registered stays registered, under the same or under a newer
    handle. *)
Theorem serviceMap_never_shrinks op w n :
  is_Some (serviceMap (this w) !! n) → is_Some (serviceMap (this (perform op w)) !! n).
Proof.
  destruct op; simpl.
  - revert w. change (maintains (λ w, is_Some (serviceMap (this w) !! n)) (load replies)).
    unfold load, loadServiceDefinitions. maintains_structure;
      solve [ by intros ?? | apply createSchema_maintains_registered
            | apply createServices_maintains_registered ].
  - apply createSchema_maintains_registered.
  - apply createServices_maintains_registered.
  - revert w.
    change (maintains (λ w, is_Some (serviceMap (this w) !! n))
              (loadServiceDefinitions replies c)).
    unfold loadServiceDefinitions. maintains_structure;
      solve [ by intros ?? | apply createServices_maintains_registered ].
  - intros Hn. pose proof (executor_keeps_gateway requestContext w) as Hkept.
    by rewrite (f_equal serviceMap Hkept : serviceMap (this _) = serviceMap (this w)).
  - done.
  - by rewrite runReaction_this.
Qed.

Lemma createServices_keeps_observers l : keeps (λ w, observers (this w)) (createServices l).
Proof. intros w. by destruct (createServices_frame l w) as (-> & _ & _). Qed.

Lemma createSchema_keeps_observers services :
  keeps (λ w, observers (this w)) (createSchema services).
Proof.
  unfold createSchema. keeps_structure; solve [ done | apply createServices_keeps_observers ].
Qed.

Lemma perform_keeps_observers op w : observers (this (perform op w)) = observers (this w).
Proof.
  destruct op; simpl.
  - revert w. change (keeps (λ w, observers (this w)) (load replies)).
    unfold load, loadServiceDefinitions. keeps_structure;
      solve [ done | apply createSchema_keeps_observers | apply createServices_keeps_observers ].
  - apply createSchema_keeps_observers.
  - apply createServices_keeps_observers.
  - revert w. change (keeps (λ w, observers (this w)) (loadServiceDefinitions replies c)).
    unfold loadServiceDefinitions. keeps_structure;
      solve [ done | apply createServices_keeps_observers ].
  - pose proof (executor_keeps_gateway requestContext w) as Hkept.
    by apply (f_equal observers) in Hkept.
  - done.
  - by rewrite runReaction_this.
Qed.

(** X19: the configuration and the observers of a gateway are fixed when
    it is constructed: in every state it reaches, [config] is the object
    the constructor made by spreading the configuration it was given over
    the default of [__exposeQueryPlanExperimental] (so the key has the
    value the configuration gives it, [undefined] included, and the default
    only when the configuration lacks the key), and the observers and the
    loader are the ones that configuration sets. *)
Theorem configuration_is_fixed NODE_ENV c w :
  reachable NODE_ENV c w →
  config (this w) = spreadConfig NODE_ENV c
  ∧ Config.__exposeQueryPlanExperimental (config (this w))
    = Some match Config.__exposeQueryPlanExperimental c with
           | Some explicit => explicit
           | None => Some (negb (bool_decide (NODE_ENV = Some "production")))
           end
  ∧ observers (this w) = configuredObservers c.
Proof.
  intros Hreachable. split; [by apply (reachable_config NODE_ENV)|].
  split; [by apply reachable_flag|].
  induction Hreachable as [Hreturned|op w _ IH]; [|by rewrite perform_keeps_observers].
  revert Hreturned. unfold new_ApolloGateway, constructor, initializeQueryPlanStore. run.
  destruct (Config.debug c) as [[]|]; simpl;
    (destruct (Config.localServiceList c) as [l|]; simpl; [|done]);
    by destruct (createSchema l _) as [w1 [[]|e]].
Qed.

(** ** Further properties of the configuration *)

(** X22: a configuration that has the key [__exposeQueryPlanExperimental]
    with the value [undefined] switches the exposure of query plans off,
    whatever [NODE_ENV] is: the spread of the constructor copies the key
    over the default.  Every response of such a gateway is the response
    [executeQueryPlan] returned, untouched. *)
Theorem explicit_undefined_hides_query_plan NODE_ENV c w rc response :
  reachable NODE_ENV c w →
  Config.__exposeQueryPlanExperimental c = Some None →
  (executor rc w).2 = Return response →
  Config.__exposeQueryPlanExperimental (config (this w)) = Some None
  ∧ ∃ queryPlan ctx,
      executeQueryPlan queryPlan (serviceMap (this w)) rc ctx = Return response.
Proof.
  intros Hreach Hkey Hreturned.
  pose proof (reachable_flag _ _ _ Hreach) as Hflag. rewrite Hkey in Hflag.
  split; [done|].
  destruct (executor_returns _ _ _ Hreturned) as (queryPlan & ctx & jobs & Hserved & _).
  exists queryPlan, ctx. unfold served, shouldShowQueryPlan in Hserved.
  rewrite Hflag in Hserved.
  destruct (executeQueryPlan queryPlan (serviceMap (this w)) rc ctx) as [executed|e];
    [|done].
  destruct (experimental_didResolveQueryPlan (this w)) as [f|]; simpl in Hserved;
    [destruct (f queryPlan (serviceMap (this w)) ctx) as [[]|e]; [|done]|];
    by injection Hserved as ->.
Qed.

End Properties.

(** * The properties on the small federation *)

#[local] Existing Instance Demo.types.

(** C7, on the code: [load] takes the service list of a gateway from
    nothing to [accounts] and [products] while
    [experimental_didUpdateServiceList] is set, and the callback is not
    called. *)
Theorem load_reports_no_service_list_update :
  let loaded := @load _ Demo.stores (Demo.replying [Demo.accounts; Demo.products]) Demo.remote in
  is_Some (experimental_didUpdateServiceList (this Demo.remote))
  ∧ serviceMap (this Demo.remote) = ∅
  ∧ (∃ result, loaded.2 = Return result)
  ∧ isReady (this loaded.1) = true
  ∧ serviceMap (this loaded.1)
    = {[ "accounts" := RemoteGraphQLDataSource (Some "http://accounts");
         "products" := RemoteGraphQLDataSource (Some "http://products") ]}
  ∧ serviceListReports loaded.1 = [].
Proof.
  cbv zeta. split_and!.
  - vm_compute. eexists. reflexivity.
  - vm_compute. reflexivity.
  - vm_compute. eexists. reflexivity.
  - vm_compute. reflexivity.
  - vm_compute. reflexivity.
  - vm_compute. reflexivity.
Qed.

(** ** Inputs that meet the hypotheses *)


Lemma executor_plan_fallback_witness :
  cachedPlan (H0 := Demo.stores) (this (Demo.started false)) "5f2a" = None
  ∧ plansExecuted
      (calls (@executor _ Demo.stores (Demo.meRequest None) (Demo.started false)).1)
    = [Demo.mePlan].
Proof.
  split; [vm_compute; reflexivity|].
  assert (@buildOperationContext _ Demo.stores (schema (this (Demo.started false)))
            "{ me { name } }" None = Return Demo.meContext) as Hcontext
    by (vm_compute; reflexivity).
  pose proof (@executor_plan_fallback _ Demo.stores (Demo.started false)
                (Demo.meRequest None) Demo.meContext Hcontext) as Hserved.
  vm_compute in Hserved. vm_compute. exact (proj1 Hserved).
Defined.

Lemma plan_cache_write_is_detached_witness :
  let never := @executor _ Demo.stalls (Demo.meRequest None) Demo.stalling in
  let refused := @executor _ Demo.rejects (Demo.meRequest None) (Demo.started true) in
  (∃ response, never.2 = Return response)
  ∧ never.2 = (@executor _ Demo.stalls (Demo.meRequest None)
                 (withoutQueryPlanStore Demo.stalling)).2
  ∧ reactions never.1 = [catch_warn "Could not store queryPlan" None]
  ∧ warnings never.1 = []
  ∧ refused.2 = (@executor _ Demo.rejects (Demo.meRequest None)
                   (withoutQueryPlanStore (Demo.started true))).2
  ∧ reactions refused.1 = []
  ∧ warnings refused.1 = [logger_warn "Could not store queryPlan" Demo.refused].
Proof.
  cbv zeta.
  assert (@buildOperationContext _ Demo.stalls (schema (this Demo.stalling))
            "{ me { name } }" None = Return Demo.meContext) as Hcontext
    by (vm_compute; reflexivity).
  destruct (@plan_cache_write_is_detached _ Demo.stalls Demo.stalling
              (Demo.meRequest None) Demo.meContext
              (@InMemoryLRUCache _ Demo.stalls (2 ^ 20 * 30)%N
                 (@approximateObjectSize _ Demo.stalls))
              (@InMemoryLRUCache _ Demo.stalls (2 ^ 20 * 30)%N
                 (@approximateObjectSize _ Demo.stalls))
              Demo.mePlan Hcontext)
    as (Houtcome & _ & _ & _ & Hpending & Hwarnings & _); [vm_compute; reflexivity..|].
  assert (@buildOperationContext _ Demo.rejects (schema (this (Demo.started true)))
            "{ me { name } }" None = Return Demo.meContext) as Hcontext'
    by (vm_compute; reflexivity).
  destruct (@plan_cache_write_is_detached _ Demo.rejects (Demo.started true)
              (Demo.meRequest None) Demo.meContext
              (@InMemoryLRUCache _ Demo.rejects (2 ^ 20 * 30)%N
                 (@approximateObjectSize _ Demo.rejects))
              (@InMemoryLRUCache _ Demo.rejects (2 ^ 20 * 30)%N
                 (@approximateObjectSize _ Demo.rejects))
              Demo.mePlan Hcontext')
    as (Houtcome' & _ & _ & _ & Hpending' & Hwarnings' & _); [vm_compute; reflexivity..|].
  split; [eexists; vm_compute; reflexivity|]. split; [exact Houtcome|].
  split; [rewrite Hpending; vm_compute; reflexivity|].
  split; [rewrite Hwarnings; vm_compute; reflexivity|].
  split; [exact Houtcome'|].
  split; [rewrite Hpending'|rewrite Hwarnings']; vm_compute; reflexivity.
Defined.


Lemma createSchema_extends_serviceMap_witness :
  compositionFailed (H0 := Demo.stores) [Demo.products] = false
  ∧ serviceMap (this (@createSchema _ Demo.stores [Demo.products] Demo.stumbled).1)
      !! "accounts"
    = serviceMap (this Demo.stumbled) !! "accounts".
Proof.
  assert (compositionFailed (H0 := Demo.stores) [Demo.products] = false) as Hcomposed
    by (vm_compute; reflexivity).
  split; [exact Hcomposed|].
  destruct (@createSchema_extends_serviceMap _ Demo.stores _ Demo.stumbled Hcomposed)
    as (Hkept & _).
  apply Hkept. intros Hlisted. apply list_elem_of_singleton in Hlisted. discriminate.
Defined.

Lemma createSchema_installs_alias_resolver_witness :
  compositionFailed (H0 := Demo.stores) [Demo.accounts] = false
  ∧ ∃ adopted user,
      schema (this (@createSchema _ Demo.stores [Demo.accounts] (Demo.started false)).1)
      = Some adopted
      ∧ getTypeMap adopted !! "User" = Some user
      ∧ ∃ field, getFields user !! "name" = Some field
                 ∧ resolve field = Some defaultFieldResolverWithAliasSupport.
Proof.
  assert (compositionFailed (H0 := Demo.stores) [Demo.accounts] = false) as Hcomposed
    by (vm_compute; reflexivity).
  split; [exact Hcomposed|].
  destruct (@createSchema_installs_alias_resolver _ Demo.stores [Demo.accounts]
              (Demo.started false) Hcomposed) as (adopted & Hadopted & _ & _ & _ & Hfields & _).
  destruct (Hfields "User" (Demo.objectType "User" ["id"; "name"]))
    as (user & Huser & _ & _ & Hfield); [vm_compute; reflexivity|].
  specialize (Hfield "name").
  assert (getFields (Demo.objectType "User" ["id"; "name"]) !! "name" = Some Demo.plainField)
    as Hname by (vm_compute; reflexivity).
  rewrite Hname in Hfield. destruct Hfield as (field & Hlookup & _ & Hresolve).
  exists adopted, user. split; [exact Hadopted|]. split; [exact Huser|].
  exists field. split; [exact Hlookup|exact Hresolve].
Defined.

Lemma load_idempotent_witness :
  let first := @load _ Demo.stores (Demo.replying [Demo.accounts; Demo.products])
                 Demo.remote in
  let result := {| loadedSchema := schema (this first.1);
                   loadedExecutor := @executor _ Demo.stores |} in
  first.2 = Return result
  ∧ @load _ Demo.stores (Demo.replying [Demo.broken]) first.1 = (first.1, Return result).
Proof.
  cbv zeta.
  assert ((@load _ Demo.stores (Demo.replying [Demo.accounts; Demo.products])
             Demo.remote).2
          = Return {| loadedSchema :=
                        schema (this (@load _ Demo.stores
                                        (Demo.replying [Demo.accounts; Demo.products])
                                        Demo.remote).1);
                      loadedExecutor := @executor _ Demo.stores |}) as Hreturned
    by (vm_compute; reflexivity).
  split; [exact Hreturned|].
  exact (proj2 (@load_idempotent _ Demo.stores _ _ _ Hreturned) _).
Defined.

Lemma isReady_implies_schema_witness :
  let w := (@new_ApolloGateway _ Demo.stores None Demo.localConfig).1 in
  reachable (H0 := Demo.stores) None Demo.localConfig w
  ∧ isReady (this w) = true
  ∧ ∃ currentSchema, schema (this w) = Some currentSchema.
Proof.
  cbv zeta.
  assert (reachable (H0 := Demo.stores) None Demo.localConfig
            (@new_ApolloGateway _ Demo.stores None Demo.localConfig).1) as Hreachable
    by (apply reachable_new; vm_compute; reflexivity).
  assert (isReady (this (@new_ApolloGateway _ Demo.stores None Demo.localConfig).1) = true)
    as Hready by (vm_compute; reflexivity).
  split; [exact Hreachable|]. split; [exact Hready|].
  destruct (@isReady_implies_schema _ Demo.stores _ _ _ Hreachable)
    as (_ & _ & Hderef & _ & _).
  destruct (Hderef Hready) as (currentSchema & Hschema & _). by exists currentSchema.
Defined.

Lemma query_plan_exposure_witness :
  let w := (@new_ApolloGateway _ Demo.stores None Demo.localConfig).1 in
  reachable (H0 := Demo.stores) None Demo.localConfig w
  ∧ ∃ response,
      (@executor _ Demo.stores (Demo.meRequest (Some "true")) w).2 = Return response
      ∧ carriesQueryPlan response.
Proof.
  cbv zeta.
  assert (reachable (H0 := Demo.stores) None Demo.localConfig
            (@new_ApolloGateway _ Demo.stores None Demo.localConfig).1) as Hreachable
    by (apply reachable_new; vm_compute; reflexivity).
  split; [exact Hreachable|].
  eexists. split; [vm_compute; reflexivity|].
  destruct (@query_plan_exposure _ Demo.stores None Demo.localConfig _
              (Demo.meRequest (Some "true")) _ Hreachable
              ltac:(vm_compute; reflexivity))
    as (_ & queryPlan & ctx & executed & _ & _ & Hon & _).
  apply Hon. split; [vm_compute; reflexivity|].
  exists "true". split; [vm_compute; reflexivity|discriminate].
Defined.

(** ** Inputs at which a claim fails as worded *)


(** C6: a first [load] registered [accounts] and then threw on [reviews],
    which has no url.  The composition of [products] alone then succeeds,
    and [accounts] is still in the service map. *)
Lemma stale_service_stays_registered :
  ¬ serviceMapRebuilt (H0 := Demo.stores) Demo.stumbled [Demo.products].
Proof.
  intros Hclaimed.
  specialize (Hclaimed ltac:(vm_compute; reflexivity) "accounts").
  destruct Hclaimed as [Hlisted _].
  assert ("accounts" ∈ map name (map endpoint [Demo.products])) as Habsurd.
  { apply Hlisted. vm_compute. by eexists. }
  apply list_elem_of_singleton in Habsurd. discriminate.
Qed.

(** C4: the flag is on and the request has the header, with an empty value;
    the response carries no query plan. *)
Lemma empty_header_exposes_nothing :
  ¬ exposedWhenHeaderPresent (H0 := Demo.stores) (Demo.started false)
      (Demo.meRequest (Some "")).
Proof.
  intros Hclaimed.
  destruct (Hclaimed _ ltac:(vm_compute; reflexivity)) as [_ Hcarries].
  destruct Hcarries as (exposed & Hexposed & _).
  - split; vm_compute; reflexivity.
  - vm_compute in Hexposed. discriminate.
Qed.


(** ** Inputs for the further properties *)

Lemma createServices_missing_url_witness :
  let services := [endpoint Demo.accounts; endpoint Demo.reviews; endpoint Demo.products] in
  (createServices services Demo.custom).2
    = Throw (missingUrl (endpoint Demo.reviews))
  ∧ is_Some (serviceMap (this (createServices services Demo.custom).1)
               !! "accounts")
  ∧ serviceMap (this (createServices services Demo.custom).1) !! "products"
    = None.
Proof.
  cbv zeta.
  destruct (createServices_missing_url [endpoint Demo.accounts]
              (endpoint Demo.reviews) [endpoint Demo.products] Demo.custom)
    as (Hthrown & Hregistered & Hother & _).
  - vm_compute. reflexivity.
  - constructor; [|constructor]. split; [left; vm_compute; reflexivity|].
    eexists. vm_compute. reflexivity.
  - vm_compute. reflexivity.
  - split; [exact Hthrown|]. split.
    + apply (Hregistered (endpoint Demo.accounts)). apply list_elem_of_here.
    + etransitivity; [|vm_compute; reflexivity].
      apply (Hother "products"). intros Hin.
      apply list_elem_of_singleton in Hin. discriminate.
Defined.

Lemma createServices_last_definition_wins_witness :
  let services := [endpoint Demo.accounts; endpoint Demo.accountsMoved;
                   endpoint Demo.products] in
  (createServices services Demo.custom).2 = Return tt
  ∧ serviceMap (this (createServices services Demo.custom).1) !! "accounts"
    = Some (RemoteGraphQLDataSource (Some "http://accounts-2")).
Proof.
  cbv zeta.
  assert ((createServices ([endpoint Demo.accounts] ++ endpoint Demo.accountsMoved
                :: [endpoint Demo.products]) Demo.custom).2 = Return tt) as Hreturned
    by (vm_compute; reflexivity).
  split; [exact Hreturned|].
  apply (createServices_last_definition_wins [endpoint Demo.accounts]
           (endpoint Demo.accountsMoved) [endpoint Demo.products] Demo.custom _ Hreturned).
  - intros Hin. apply list_elem_of_singleton in Hin. discriminate.
  - vm_compute. reflexivity.
Defined.

Lemma createSchema_partial_adoption_witness :
  (@createSchema _ Demo.stores [Demo.accounts; Demo.reviews] Demo.custom).2
    = Throw (missingUrl (endpoint Demo.reviews))
  ∧ is_Some (schema (this (@createSchema _ Demo.stores [Demo.accounts; Demo.reviews]
                             Demo.custom).1))
  ∧ isReady (this (@createSchema _ Demo.stores [Demo.accounts; Demo.reviews]
                     Demo.custom).1) = isReady (this Demo.custom).
Proof.
  assert ((@createSchema _ Demo.stores [Demo.accounts; Demo.reviews] Demo.custom).2
          = Throw (missingUrl (endpoint Demo.reviews))) as Hthrown
    by (vm_compute; reflexivity).
  split; [exact Hthrown|].
  destruct (@createSchema_partial_adoption _ Demo.stores [Demo.accounts; Demo.reviews]
              Demo.custom _ ltac:(vm_compute; reflexivity) Hthrown)
    as (Hschema & Hready & _).
  split; [|exact Hready]. rewrite Hschema. by eexists.
Defined.

Lemma createSchema_reports_update_witness :
  experimental_didUpdateSchema (this Demo.remote) = Some (λ _ _, Return tt)
  ∧ call_didUpdateSchema None
      (wrapSchemaWithAliasResolver
         (composedSchema (@composeAndValidate _ Demo.stores [Demo.accounts; Demo.products])))
    ∈ calls (@createSchema _ Demo.stores [Demo.accounts; Demo.products] Demo.remote).1.
Proof.
  assert (experimental_didUpdateSchema (this Demo.remote) = Some (λ _ _, Return tt))
    as Hobserver by (vm_compute; reflexivity).
  split; [exact Hobserver|].
  destruct (@createSchema_reports_update _ Demo.stores [Demo.accounts; Demo.products]
              Demo.remote _ ltac:(vm_compute; reflexivity) Hobserver) as [Hcalls _].
  rewrite Hcalls. apply elem_of_app. right. apply elem_of_app. left.
  assert (schema (this Demo.remote) = None) as -> by (vm_compute; reflexivity).
  apply list_elem_of_further, list_elem_of_here.
Defined.

Lemma load_without_service_list_witness :
  isReady (this Demo.remote) = false
  ∧ (@load _ Demo.stores Demo.unreachable Demo.remote).2
    = Throw (Error "connect ECONNREFUSED")
  ∧ this (@load _ Demo.stores Demo.unreachable Demo.remote).1 = this Demo.remote.
Proof.
  assert (isReady (this Demo.remote) = false) as Hready by (vm_compute; reflexivity).
  split; [exact Hready|].
  destruct (@load_without_service_list _ Demo.stores Demo.unreachable Demo.remote
              (Error "connect ECONNREFUSED") Hready) as (Hthrown & Hthis & _).
  - vm_compute. split; reflexivity.
  - by split.
Defined.

Lemma load_registers_before_composing_witness :
  let loaded := @load _ Demo.stores (Demo.replying [Demo.accounts; Demo.broken])
                  Demo.remote in
  serviceMap (this Demo.remote) !! "broken" = None
  ∧ isReady (this loaded.1) = false
  ∧ is_Some (serviceMap (this loaded.1) !! "broken").
Proof.
  cbv zeta. split; [vm_compute; reflexivity|].
  destruct (@load_registers_before_composing _ Demo.stores
              (Demo.replying [Demo.accounts; Demo.broken]) Demo.remote
              [endpoint Demo.accounts; endpoint Demo.products]
              [Demo.accounts; Demo.broken] ["Service broken declares no type"])
    as (_ & _ & Hready & Hregistered);
    try (vm_compute; reflexivity).
  - repeat constructor; try (left; vm_compute; reflexivity);
      eexists; vm_compute; reflexivity.
  - discriminate.
  - split; [exact Hready|].
    apply (Hregistered Demo.broken). apply list_elem_of_further, list_elem_of_here.
Defined.

Lemma load_custom_loader_composition_failure_witness :
  let loaded := @load _ Demo.stores (Demo.replying [Demo.accounts; Demo.broken])
                  Demo.custom in
  experimental_getServiceList (this Demo.custom) = Some CustomServiceListLoader
  ∧ this loaded.1 = this Demo.custom.
Proof.
  cbv zeta.
  assert (experimental_getServiceList (this Demo.custom) = Some CustomServiceListLoader)
    as Hloader by (vm_compute; reflexivity).
  split; [exact Hloader|].
  destruct (@load_custom_loader_composition_failure _ Demo.stores
              (Demo.replying [Demo.accounts; Demo.broken]) Demo.custom
              CustomServiceListLoader [Demo.accounts; Demo.broken]
              ["Service broken declares no type"]) as (_ & Hthis & _);
    [vm_compute; reflexivity | exact Hloader | reflexivity | vm_compute; reflexivity
    | discriminate | exact Hthis].
Defined.

Lemma constructor_calls_no_observer_witness :
  is_Some (Config.experimental_didFailComposition Demo.localConfig)
  ∧ (@new_ApolloGateway _ Demo.stores None
       {| Config.debug := None;
          Config.__exposeQueryPlanExperimental := None;
          Config.buildService := None;
          Config.serviceList := None;
          Config.introspectionHeaders := None;
          Config.experimental_didResolveQueryPlan := None;
          Config.experimental_didFailComposition :=
            Config.experimental_didFailComposition Demo.localConfig;
          Config.experimental_didUpdateSchema := None;
          Config.experimental_didUpdateServiceList := None;
          Config.experimental_getServiceList := None;
          Config.localServiceList := Some [Demo.broken] |}).2
    = Throw (GraphQLSchemaValidationError ["Service broken declares no type"]).
Proof.
  split; [by eexists|].
  apply (proj2 (@constructor_calls_no_observer _ Demo.stores None _) [Demo.broken]).
  - reflexivity.
  - vm_compute. reflexivity.
  - discriminate.
Defined.

Lemma executor_fails_before_cache_witness :
  @executor _ Demo.faulty (Demo.requestFor "") Demo.fragile
  = (Demo.fragile, Throw (Error "Must provide an operation.")).
Proof.
  apply (@executor_fails_before_cache _ Demo.faulty (Demo.requestFor "") Demo.fragile).
  vm_compute. reflexivity.
Defined.

Lemma executor_hit_needs_no_planner_witness :
  cachedPlan (H0 := Demo.stores) (this Demo.warmed) "5f2a" = Some Demo.mePlan
  ∧ reactions (@executor _ Demo.stores (Demo.meRequest None) Demo.warmed).1
    = reactions Demo.warmed.
Proof.
  assert (cachedPlan (H0 := Demo.stores) (this Demo.warmed) "5f2a" = Some Demo.mePlan)
    as Hcached by (vm_compute; reflexivity).
  split; [exact Hcached|].
  destruct (@executor_hit_needs_no_planner _ Demo.stores Demo.warmed (Demo.meRequest None)
              Demo.meContext Demo.mePlan) as (_ & _ & Hreactions);
    [vm_compute; reflexivity|exact Hcached|exact Hreactions].
Defined.

Lemma executor_execution_failure_witness :
  (@executor _ Demo.faulty (Demo.requestFor "{ boom }") Demo.fragile).2
    = Throw (Error "socket hang up")
  ∧ cachedPlan (H0 := Demo.faulty)
      (this (@executor _ Demo.faulty (Demo.requestFor "{ boom }") Demo.fragile).1)
      "sha256:{ boom }"
    = Some {| Demo.planServices := ["accounts"]; Demo.planOperation := "{ boom }" |}.
Proof.
  destruct (@executor_execution_failure _ Demo.faulty Demo.fragile
              (Demo.requestFor "{ boom }")
              (Some ["accounts"], "{ boom }", None)
              (@InMemoryLRUCache _ Demo.faulty (2 ^ 20 * 30)%N
                 (@approximateObjectSize _ Demo.faulty))
              (@InMemoryLRUCache _ Demo.faulty (2 ^ 20 * 30)%N
                 (@approximateObjectSize _ Demo.faulty))
              {| Demo.planServices := ["accounts"]; Demo.planOperation := "{ boom }" |}
              (Error "socket hang up"))
    as (Hthrown & _ & Hstore & _); try (vm_compute; reflexivity).
  split; [exact Hthrown|]. unfold cachedPlan. rewrite Hstore. vm_compute. reflexivity.
Defined.

Lemma executor_observer_failure_witness :
  (∃ response, @executeQueryPlan _ Demo.stores Demo.mePlan (serviceMap (this Demo.touchy))
                 (Demo.meRequest (Some "1")) Demo.meContext = Return response)
  ∧ (@executor _ Demo.stores (Demo.meRequest (Some "1")) Demo.touchy).2
    = Throw (Error "observer failed").
Proof.
  split; [eexists; vm_compute; reflexivity|].
  eapply (@executor_observer_failure _ Demo.stores Demo.touchy (Demo.meRequest (Some "1"))
            Demo.meContext Demo.mePlan).
  - vm_compute. reflexivity.
  - right. split; vm_compute; reflexivity.
  - vm_compute. reflexivity.
  - vm_compute. reflexivity.
  - reflexivity.
Defined.


Lemma gateway_never_regresses_witness :
  isReady (this (Demo.started false)) = true
  ∧ isReady (this (perform (H0 := Demo.stores) (op_createSchema [Demo.broken])
                     (Demo.started false))) = true.
Proof.
  assert (isReady (this (Demo.started false)) = true) as Hready by (vm_compute; reflexivity).
  split; [exact Hready|].
  exact (proj1 (@gateway_never_regresses _ Demo.stores (op_createSchema [Demo.broken])
                  (Demo.started false)) Hready).
Defined.

Lemma serviceMap_never_shrinks_witness :
  is_Some (serviceMap (this Demo.stumbled) !! "accounts")
  ∧ is_Some (serviceMap
               (this (perform (H0 := Demo.stores)
                        (op_load (Demo.replying [Demo.products])) Demo.stumbled))
               !! "accounts").
Proof.
  assert (is_Some (serviceMap (this Demo.stumbled) !! "accounts")) as Hregistered
    by (vm_compute; eexists; reflexivity).
  split; [exact Hregistered|].
  exact (@serviceMap_never_shrinks _ Demo.stores _ _ _ Hregistered).
Defined.

Lemma configuration_is_fixed_witness :
  let w := perform (H0 := Demo.stores) (op_executor (Demo.meRequest None))
             (@new_ApolloGateway _ Demo.stores None Demo.localConfig).1 in
  reachable (H0 := Demo.stores) None Demo.localConfig w
  ∧ observers (this w) = configuredObservers Demo.localConfig.
Proof.
  cbv zeta.
  assert (reachable (H0 := Demo.stores) None Demo.localConfig
            (perform (H0 := Demo.stores) (op_executor (Demo.meRequest None))
               (@new_ApolloGateway _ Demo.stores None Demo.localConfig).1)) as Hreachable
    by (apply reachable_perform, reachable_new; vm_compute; reflexivity).
  split; [exact Hreachable|].
  exact (proj2 (proj2 (@configuration_is_fixed _ Demo.stores _ _ _ Hreachable))).
Defined.

Lemma explicit_undefined_hides_query_plan_witness :
  let w := (@new_ApolloGateway _ Demo.stores None Demo.shyConfig).1 in
  reachable (H0 := Demo.stores) None Demo.shyConfig w
  ∧ ∃ response,
      (@executor _ Demo.stores (Demo.meRequest (Some "true")) w).2 = Return response
      ∧ Config.__exposeQueryPlanExperimental (config (this w)) = Some None.
Proof.
  cbv zeta.
  assert (reachable (H0 := Demo.stores) None Demo.shyConfig
            (@new_ApolloGateway _ Demo.stores None Demo.shyConfig).1) as Hreachable
    by (apply reachable_new; vm_compute; reflexivity).
  split; [exact Hreachable|].
  eexists. split; [vm_compute; reflexivity|].
  exact (proj1 (@explicit_undefined_hides_query_plan _ Demo.stores None Demo.shyConfig _
                  (Demo.meRequest (Some "true")) _ Hreachable eq_refl
                  ltac:(vm_compute; reflexivity))).
Defined.
